(** * weixin-openapi: the access-token lifecycle of [WeixinClient]

    A shallow embedding of [src/core]: the error classifier ([error.ts]),
    the transport ([fetcher.ts]), the in-memory token store
    ([memory-store.ts]) and the request client ([client.ts]).

    Conventions of the embedding.
    - A JavaScript string is a [string]; its characters stand for the code
      units of the source string.
    - A JavaScript number that the code computes with ([Date.now()],
      [expires_in], [ttl], [errcode]) is an integer of [Z].
    - An object used as a dictionary is a [gmap string _].
    - [async]/[await] code is sequential inside one logical request: it is
      written in a state-and-exception monad over the [World] (the token
      store and the trace of effects).
    - The store of a client is the repository's [WeixinMemoryStore]; the
      remote service and the clock are an arbitrary [Remote], so that a
      property proved for every [Remote] holds for every behaviour of the
      network and of time. *)

From Stdlib Require Import ZArith String Ascii List Lia Bool.
From stdpp Require Import base option gmap strings list fin_maps.

Local Open Scope string_scope.
Local Open Scope Z_scope.

(** ** Strings *)

Module Str.

(** [s.slice(0, n)] for a non-negative [n]. *)
Definition slice_to (n : nat) (s : string) : string := substring 0 n s.

(** [s.at(-1)]: the last character, [undefined] on the empty string. *)
Fixpoint at_last (s : string) : option ascii :=
  match s with
  | EmptyString => None
  | String c EmptyString => Some c
  | String _ s' => at_last s'
  end.

(** [s.slice(0, -1)]: the string without its last character. *)
Fixpoint slice_but_last (s : string) : string :=
  match s with
  | EmptyString => EmptyString
  | String _ EmptyString => EmptyString
  | String c s' => String c (slice_but_last s')
  end.

(** [s.startsWith(p)]. *)
Definition startsWith (p s : string) : bool := String.prefix p s.

(** [s[0] !== '/'] is false: the first character exists and is a slash. *)
Definition first_is_slash (s : string) : bool :=
  match s with
  | String c _ => if ascii_dec c "/"%char then true else false
  | EmptyString => false
  end.

End Str.

(** ** JSON data seen by the client *)

(** A JSON value as far as the client looks at it: a number, a string, or
    anything else ([true], [null], a nested array or object), which is
    never strictly equal to a number. *)
Inductive JsValue : Type :=
| JNum (z : Z)
| JStr (s : string)
| JOther (id : nat).

Global Instance JsValue_eq_dec : EqDecision JsValue.
Proof. solve_decision. Defined.

(** A decoded JSON object. *)
Abbreviation JsObject := (gmap string JsValue).

(** [v === n] for a number literal [n]; [None] is [undefined]. *)
Definition strict_eq_num (v : option JsValue) (n : Z) : bool :=
  match v with
  | Some (JNum z) => Z.eqb z n
  | _ => false
  end.

(** ** error.ts *)

Inductive ErrorClass : Type := WeixinErrorClass | WeixinAuthCodeErrorClass.

(** An instance of [WeixinError] or of its subclass [WeixinAuthCodeError]. *)
Record WeixinError : Type := mkWeixinError {
  error_class : ErrorClass;
  message : string;
  response : JsObject
}.

(** [this.name = this.constructor.name]. *)
Definition name (e : WeixinError) : string :=
  match error_class e with
  | WeixinErrorClass => "WeixinError"
  | WeixinAuthCodeErrorClass => "WeixinAuthCodeError"
  end.

(** A field of the object that [toJSON] returns. *)
Inductive JsonField : Type :=
| FString (s : string)
| FObject (o : JsObject).

(** [WeixinError.toJSON]: the object literal, key by key in its order. *)
Definition toJSON (e : WeixinError) : list (string * JsonField) :=
  [ ("name", FString (name e));
    ("message", FString (message e));
    ("response", FObject (response e)) ].

Definition authcodeErrorMap (errcode : option JsValue) : option string :=
  if strict_eq_num errcode 40029 then Some "invalid code"
  else if strict_eq_num errcode 40163 then Some "code has been used"
  else if strict_eq_num errcode 42003 then Some "code has expired"
  else None.

(** [title.at(-1) === '.']. *)
Definition ends_with_dot (title : string) : bool :=
  match Str.at_last title with
  | Some c => if ascii_dec c "."%char then true else false
  | None => false
  end.

Definition formatMessage (title detail : string) : string :=
  if ends_with_dot title
  then Str.slice_but_last title +:+ ": " +:+ detail +:+ "."
  else title +:+ ": " +:+ detail.

Definition createError (message : string) (response : JsObject) : WeixinError :=
  match authcodeErrorMap (response !! "errcode") with
  | Some authCodeMessage =>
      mkWeixinError WeixinAuthCodeErrorClass
        (formatMessage message authCodeMessage) response
  | None => mkWeixinError WeixinErrorClass message response
  end.

(** ** client.ts: the composite cache key *)

Definition compositeKey (appid secret : string) (stable : bool) : string :=
  appid +:+ ":" +:+ Str.slice_to 6 secret +:+ (if stable then ":stable" else "").

(** ** types.ts and the remote service *)

Inductive Method : Type := GET | POST.

(** A [Response] of [fetch], as far as the client reads it. *)
Record Response : Type := mkResponse {
  content_type : option string;  (* [res.headers.get('content-type')] *)
  json_body : option JsObject    (* the value of [res.json()]; [None]: it rejects *)
}.

(** What a call of a token endpoint comes to. The decoded body is a
    [WeixinAccessTokenResponse] (an object with an [access_token] key, taken
    to be typed as the signature of [createAccessToken] says: a string and
    a number of seconds) or an object without an [access_token] key (a
    [WeixinErrorResponse]), or it is no object at all (['access_token' in
    data] then throws a [TypeError]); or the call has no body to give:
    [fetch] rejects, or [res.json()] rejects. *)
Inductive TokenResponse : Type :=
| AccessTokenResponse (token : string) (expires_in : Z)
| TokenErrorResponse (data : JsObject)
| TokenNotAnObject
| TokenFetchRejected
| TokenJsonRejected.

(** [WeixinToken]. *)
Record WeixinToken : Type := mkToken {
  access_token : string;
  refresh_token : option string
}.

(** An entry of [WeixinMemoryStore.tokens]. *)
Record Token : Type := mkEntry {
  data : WeixinToken;
  expiresAt : Z
}.

(** [WeixinOptions]; the store is part of the [World]. *)
Record WeixinOptions : Type := mkOptions {
  appid : string;
  secret : string
}.

(** What [fetch] is called with: the text of the URL after the host, the
    [URLSearchParams] that a GET appends to it after a '?' (a POST appends
    none: its query, if any, is part of the text), and the JSON body of a
    POST. *)
Record FetchCall : Type := mkFetch {
  fetch_method : Method;
  fetch_path : string;
  fetch_query : JsObject;
  fetch_body : option JsObject
}.

(** The effects of a run, for counting and ordering them. *)
Inductive Event : Type :=
| EvGetAccessToken (forceRefresh : bool)
| EvGetStableAccessToken (forceRefresh : bool)
| EvDateNow
| EvStoreGet (key : string)
| EvStoreSet (key : string)
| EvStoreDelete (key : string)
| EvCreateAccessToken (appid secret : string)
| EvCreateStableAccessToken (appid secret : string) (forceRefresh : bool)
| EvFetch (call : FetchCall).

(** The mutable state: the store's dictionary and the events so far, the
    latest first. *)
Record World : Type := mkWorld {
  tokens : gmap string Token;
  events : list Event
}.

(** The environment of a run, scripted per primitive of [fetcher.ts] the
    way its callers stub the module: the [n]-th reading of the clock, the
    [n]-th answer of each token endpoint and the [n]-th response to a
    request of the client. *)
Record Remote : Type := mkRemote {
  clock : nat → Z;
  token_api : nat → TokenResponse;
  stable_api : nat → TokenResponse;
  data_api : nat → Response
}.

Fixpoint count (p : Event → bool) (tr : list Event) : nat :=
  match tr with
  | [] => 0%nat
  | e :: tr' => ((if p e then 1 else 0) + count p tr')%nat
  end.

Definition is_manager_call (e : Event) : bool :=
  match e with EvGetAccessToken _ => true | _ => false end.
Definition is_clock_read (e : Event) : bool :=
  match e with EvDateNow => true | _ => false end.
Definition is_token_call (e : Event) : bool :=
  match e with EvCreateAccessToken _ _ => true | _ => false end.
Definition is_stable_call (e : Event) : bool :=
  match e with EvCreateStableAccessToken _ _ _ => true | _ => false end.
Definition is_data_call (e : Event) : bool :=
  match e with EvFetch _ => true | _ => false end.

(** Invocations of [getAccessToken]. *)
Definition manager_calls (w : World) : nat := count is_manager_call (events w).
(** Readings of [Date.now()]. *)
Definition clock_reads (w : World) : nat := count is_clock_read (events w).
(** Calls of [fetcher.createAccessToken]. *)
Definition token_calls (w : World) : nat := count is_token_call (events w).
(** Calls of [fetcher.createStableAccessToken]. *)
Definition stable_calls (w : World) : nat := count is_stable_call (events w).
(** Network calls of the client's requests. *)
Definition data_calls (w : World) : nat := count is_data_call (events w).

(** ** The monad of the embedding *)

Inductive JsError : Type :=
| PlainError (msg : string)       (* [new Error(msg)] *)
| JsonRejected                    (* [res.json()] rejects *)
| FetchRejected                   (* [fetch] rejects *)
| TypeError                       (* the [in] operator on a value that is no object *)
| WeixinThrown (e : WeixinError). (* [throw createError(..)] *)

Inductive Outcome (A : Type) : Type :=
| Returned (a : A)
| Thrown (e : JsError)
| OutOfFuel.
Arguments Returned {A} a.
Arguments Thrown {A} e.
Arguments OutOfFuel {A}.

Definition M (A : Type) : Type := World → Outcome A * World.

Definition ret {A} (a : A) : M A := fun w => (Returned a, w).

Definition throw {A} (e : JsError) : M A := fun w => (Thrown e, w).

Definition bind {A B} (m : M A) (k : A → M B) : M B := fun w =>
  match m w with
  | (Returned a, w') => k a w'
  | (Thrown e, w') => (Thrown e, w')
  | (OutOfFuel, w') => (OutOfFuel, w')
  end.

Notation "'let!' x ':=' m 'in' k" := (bind m (fun x => k))
  (at level 10, x name, m at level 100, k at level 200).

Definition emit (e : Event) : M unit := fun w =>
  (Returned tt, mkWorld (tokens w) (e :: events w)).

Definition read_tokens : M (gmap string Token) := fun w =>
  (Returned (tokens w), w).

Definition modify_tokens (f : gmap string Token → gmap string Token) : M unit :=
  fun w => (Returned tt, mkWorld (f (tokens w)) (events w)).

Section Client.

Variable env : Remote.

(** [Date.now()]. *)
Definition date_now : M Z := fun w =>
  (Returned (clock env (clock_reads w)),
   mkWorld (tokens w) (EvDateNow :: events w)).

(** ** memory-store.ts *)

Definition getTokenData (key : string) : M (option WeixinToken) :=
  let! tokens := read_tokens in
  match tokens !! key with
  | None => ret None
  | Some token =>
      let! now := date_now in
      if expiresAt token <=? now then
        (* Destroy expired token. *)
        let! _ := modify_tokens (delete key) in
        ret None
      else ret (Some (data token))
  end.

Definition store_get (key : string) : M (option WeixinToken) :=
  let! _ := emit (EvStoreGet key) in
  getTokenData key.

Definition store_set (key : string) (token : WeixinToken) (ttl : Z) : M unit :=
  let! _ := emit (EvStoreSet key) in
  let! now := date_now in
  modify_tokens (insert key (mkEntry token (now + ttl * 1000))).

Definition store_delete (key : string) : M unit :=
  let! _ := emit (EvStoreDelete key) in
  modify_tokens (delete key).

(** ** fetcher.ts *)

(** [fetch]: one network call, answered by the next scripted response. *)
Definition fetch (call : FetchCall) : M Response := fun w =>
  (Returned (data_api env (data_calls w)),
   mkWorld (tokens w) (EvFetch call :: events w)).

(** [if (accessToken)]: neither [null] nor the empty string. *)
Definition truthy (accessToken : option string) : option string :=
  match accessToken with
  | Some EmptyString => None
  | t => t
  end.

Definition request (method : Method) (path : string)
    (accessToken : option string) (params : JsObject) : M Response :=
  if negb (Str.first_is_slash path) then
    throw (PlainError "Path must start with '/'")
  else
    match method with
    | GET =>
        let queryParams :=
          match truthy accessToken with
          | Some t => <["access_token" := JStr t]> params
          | None => params
          end in
        fetch (mkFetch GET path queryParams None)
    | POST =>
        let path :=
          match truthy accessToken with
          | Some t => path +:+ "?access_token=" +:+ t
          | None => path
          end in
        fetch (mkFetch POST path ∅ (Some params))
    end.

(** [res.json()]. *)
Definition json (res : Response) : M JsObject :=
  match json_body res with
  | Some o => ret o
  | None => throw JsonRejected
  end.

(** The promise of a token call: the decoded body, or the rejection of
    [fetch] or of [res.json()]. *)
Definition settle (answer : TokenResponse) : Outcome TokenResponse :=
  match answer with
  | TokenFetchRejected => Thrown FetchRejected
  | TokenJsonRejected => Thrown JsonRejected
  | body => Returned body
  end.

(** [createAccessToken]: [request('GET', '/cgi-bin/token', null, {appid,
    secret, grant_type})] followed by [res.json()]. The literal path
    passes the guard of [request]. The network call is recorded with its
    arguments as an event of its own, apart from the requests of the
    client, so that the calls of the token endpoint and the data calls are
    counted separately; it comes to the next scripted answer of the token
    endpoint, which may be the rejection of [fetch] or of [res.json()]. *)
Definition createAccessToken (appid secret : string) : M TokenResponse :=
  fun w =>
    (settle (token_api env (token_calls w)),
     mkWorld (tokens w) (EvCreateAccessToken appid secret :: events w)).

(** [createStableAccessToken]: the same over
    [request('POST', '/cgi-bin/stable_token', null, ..)]. *)
Definition createStableAccessToken (appid secret : string)
    (forceRefresh : bool) : M TokenResponse :=
  fun w =>
    (settle (stable_api env (stable_calls w)),
     mkWorld (tokens w)
       (EvCreateStableAccessToken appid secret forceRefresh :: events w)).

(** ** client.ts *)

Variable options : WeixinOptions.

Definition getAccessToken (forceRefresh : bool) : M string :=
  let! _ := emit (EvGetAccessToken forceRefresh) in
  let key := compositeKey (appid options) (Str.slice_to 6 (secret options)) false in
  let! cachedToken :=
    (if forceRefresh then (let! _ := store_delete key in ret None)
     else store_get key) in
  match cachedToken with
  | Some cached => ret (access_token cached)
  | None =>
      let! data := createAccessToken (appid options) (secret options) in
      match data with
      | AccessTokenResponse token expires_in =>
          let ttl := expires_in - 10 in
          let! _ := store_set key (mkToken token None) ttl in
          ret token
      | TokenErrorResponse data =>
          throw (WeixinThrown (createError "Unable to get an access token." data))
      | TokenNotAnObject => throw TypeError
      | TokenFetchRejected => throw FetchRejected (* has rejected above *)
      | TokenJsonRejected => throw JsonRejected   (* has rejected above *)
      end
  end.

Definition getStableAccessToken (forceRefresh : bool) : M string :=
  let! _ := emit (EvGetStableAccessToken forceRefresh) in
  let key := compositeKey (appid options) (Str.slice_to 6 (secret options)) true in
  let! cachedToken :=
    (if forceRefresh then (let! _ := store_delete key in ret None)
     else store_get key) in
  match cachedToken with
  | Some cached => ret (access_token cached)
  | None =>
      let! data := createStableAccessToken (appid options) (secret options) forceRefresh in
      match data with
      | AccessTokenResponse token expires_in =>
          let ttl := expires_in - 10 in
          let! _ := store_set key (mkToken token None) ttl in
          ret token
      | TokenErrorResponse data =>
          throw (WeixinThrown (createError "Unable to get a stable access token." data))
      | TokenNotAnObject => throw TypeError
      | TokenFetchRejected => throw FetchRejected (* has rejected above *)
      | TokenJsonRejected => throw JsonRejected   (* has rejected above *)
      end
  end.

(** ['errcode' in data && data.errcode !== 0]. *)
Definition errcode_nonzero (data : JsObject) : bool :=
  match data !! "errcode" with
  | Some v => negb (strict_eq_num (Some v) 0)
  | None => false
  end.

Definition failed_message (path : string) : string :=
  "Request to '" +:+ path +:+ "' is failed.".

(** [#request]. The source calls itself once more with [isRetry = true];
    [fuel] bounds the depth of that recursion. *)
Fixpoint client_request (fuel : nat) (method : Method) (path : string)
    (params : JsObject) (isRetry : bool) : M JsObject :=
  match fuel with
  | O => fun w => (OutOfFuel, w)
  | S fuel' =>
      let! accessToken := getAccessToken false in
      let! res := request method path (Some accessToken) params in
      let! data := json res in
      if errcode_nonzero data then
        if negb isRetry && strict_eq_num (data !! "errcode") 40001 then
          (* access token is invalid, will retry once *)
          let! _ := getAccessToken true in
          client_request fuel' method path params true
        else throw (WeixinThrown (createError (failed_message path) data))
      else ret data
  end.

(** [res.headers.get('content-type')?.startsWith('application/json')]. *)
Definition is_json_content (res : Response) : bool :=
  match content_type res with
  | Some ct => Str.startsWith "application/json" ct
  | None => false
  end.

(** [#raw]. *)
Fixpoint client_raw (fuel : nat) (method : Method) (path : string)
    (params : JsObject) (isRetry : bool) : M Response :=
  match fuel with
  | O => fun w => (OutOfFuel, w)
  | S fuel' =>
      let! accessToken := getAccessToken false in
      let! res := request method path (Some accessToken) params in
      if is_json_content res then
        (* an error arises *)
        let! data := json res in
        if negb isRetry && strict_eq_num (data !! "errcode") 40001 then
          (* access token is invalid, will retry once *)
          let! _ := getAccessToken true in
          client_raw fuel' method path params true
        else throw (WeixinThrown (createError (failed_message path) data))
      else ret res
  end.

(** The public entry points. Two levels of [#request] and of [#raw] are
    all a call can reach: the level entered with [isRetry = true] does not
    call itself again. *)
Definition get (path : string) (query : JsObject) : M JsObject :=
  client_request 2 GET path query false.

Definition post (path : string) (body : JsObject) : M JsObject :=
  client_request 2 POST path body false.

Definition getRaw (path : string) (query : JsObject) : M Response :=
  client_raw 2 GET path query false.

Definition postRaw (path : string) (body : JsObject) : M Response :=
  client_raw 2 POST path body false.

End Client.

(** * The vocabulary of the properties *)

(** The key under which a client caches its token ([key] in
    [getAccessToken] and [getStableAccessToken]). *)
Definition cache_key (options : WeixinOptions) (stable : bool) : string :=
  compositeKey (appid options) (Str.slice_to 6 (secret options)) stable.

(** The entry that [getAccessToken] stores for an answer of the token
    endpoint, read at the clock value [now]. *)
Definition fresh_entry (token : string) (expires_in now : Z) : Token :=
  mkEntry (mkToken token None) (now + (expires_in - 10) * 1000).

(** What [getAccessToken] (with [message] "Unable to get an access
    token.") or [getStableAccessToken] throws when the call of the token
    endpoint does not come to a token. *)
Definition token_failure (message : string) (answer : TokenResponse) : JsError :=
  match answer with
  | TokenErrorResponse data => WeixinThrown (createError message data)
  | TokenFetchRejected => FetchRejected
  | TokenJsonRejected => JsonRejected
  | _ => TypeError
  end.

(** The error [e] is the one that a token call with the answer [answer]
    ends in: the classified payload, the [TypeError] of [in] on a body that
    is no object, or the rejection of [fetch] or of [res.json()]. *)
Definition failed_as (message : string) (answer : TokenResponse)
    (e : JsError) : Prop :=
  (∃ payload, answer = TokenErrorResponse payload ∧
     e = WeixinThrown (createError message payload)) ∨
  (answer = TokenNotAnObject ∧ e = TypeError) ∨
  (answer = TokenFetchRejected ∧ e = FetchRejected) ∨
  (answer = TokenJsonRejected ∧ e = JsonRejected).

(** [n] calls in a row, as a caller that awaits each one would make them. *)
Fixpoint repeatM {A : Type} (n : nat) (m : M A) : M (list A) :=
  match n with
  | O => ret []
  | S n' =>
      let! a := m in
      let! rest := repeatM n' m in
      ret (a :: rest)
  end.

(** The call that [request] hands to [fetch]. *)
Definition sent_call (method : Method) (path : string)
    (accessToken : option string) (params : JsObject) : FetchCall :=
  match method with
  | GET =>
      mkFetch GET path
        (match truthy accessToken with
         | Some t => <["access_token" := JStr t]> params
         | None => params
         end) None
  | POST =>
      mkFetch POST
        (match truthy accessToken with
         | Some t => path +:+ "?access_token=" +:+ t
         | None => path
         end) ∅ (Some params)
  end.

(** A path that starts with '/'. *)
Definition starts_with_slash (path : string) : Prop :=
  ∃ rest, path = String "/"%char rest.

(** A response whose [content-type] header starts with
    [application/json]. *)
Definition json_typed (res : Response) : Prop :=
  ∃ rest, content_type res = Some ("application/json" +:+ rest).

(** A response without a [content-type] header, or with one that does not
    start with [application/json]. *)
Definition not_json_typed (res : Response) : Prop :=
  ∀ rest, content_type res ≠ Some ("application/json" +:+ rest).

(** A JSON body with an [errcode] that is not the number 0. *)
Definition reports_error (data : JsObject) : Prop :=
  ∃ code, data !! "errcode" = Some code ∧ code ≠ JNum 0.

(** A JSON body with an [errcode] that is neither the number 0 nor the
    stale-token code 40001. *)
Definition other_error (data : JsObject) : Prop :=
  ∃ code, data !! "errcode" = Some code ∧ code ≠ JNum 0 ∧ code ≠ JNum 40001.

(** A call that returns [result] after exactly [n] network calls. *)
Definition returns_after {A : Type} (call : M A) (result : A) (n : nat)
    (w : World) : Prop :=
  fst (call w) = Returned result ∧
  data_calls (snd (call w)) = (data_calls w + n)%nat.

(** A call that throws [e] after exactly [n] network calls. *)
Definition throws_after {A : Type} (call : M A) (e : JsError) (n : nat)
    (w : World) : Prop :=
  fst (call w) = Thrown e ∧
  data_calls (snd (call w)) = (data_calls w + n)%nat.

(** [getRaw] and [postRaw] both end in [outcome] after exactly [n] network
    calls. *)
Definition raw_forms_end (env : Remote) (options : WeixinOptions)
    (path : string) (params : JsObject) (outcome : Outcome Response) (n : nat)
    (w : World) : Prop :=
  (fst (getRaw env options path params w) = outcome ∧
   data_calls (snd (getRaw env options path params w)) = (data_calls w + n)%nat) ∧
  (fst (postRaw env options path params w) = outcome ∧
   data_calls (snd (postRaw env options path params w)) = (data_calls w + n)%nat).

(** The operations of the store on the key [k]. *)
Definition is_store_op (k : string) (e : Event) : bool :=
  match e with
  | EvStoreGet k' | EvStoreSet k' | EvStoreDelete k' => bool_decide (k' = k)
  | _ => false
  end.

Definition store_ops (k : string) (w : World) : nat :=
  count (is_store_op k) (events w).

(** Two worlds with the same past that hold the same entries, but for the
    entries under the keys of the client [o]. *)
Definition same_but_for (o : WeixinOptions) (w w' : World) : Prop :=
  events w = events w' ∧
  ∀ k, (∀ stable, k ≠ cache_key o stable) → tokens w !! k = tokens w' !! k.

(** What the call returns or throws, and what it leaves in the rest of the
    store, does not depend on the entries under the keys of the client
    [o]. *)
Definition independent_of {A : Type} (o : WeixinOptions) (call : M A) : Prop :=
  ∀ w w', same_but_for o w w' →
    fst (call w) = fst (call w') ∧
    same_but_for o (snd (call w)) (snd (call w')).

(** The call makes no operation of the store on a key of the client [o]
    and leaves the entries under these keys as they are. *)
Definition keeps_off {A : Type} (o : WeixinOptions) (call : M A) : Prop :=
  ∀ w stable,
    store_ops (cache_key o stable) (snd (call w))
      = store_ops (cache_key o stable) w ∧
    tokens (snd (call w)) !! cache_key o stable
      = tokens w !! cache_key o stable.

(** The token managers of the client [o], forced or not, neither read nor
    return nor change what the store holds under the keys of the client
    [other]. *)
Definition isolated_from (other o : WeixinOptions) : Prop :=
  ∀ env forceRefresh,
    independent_of other (getAccessToken env o forceRefresh) ∧
    independent_of other (getStableAccessToken env o forceRefresh) ∧
    keeps_off other (getAccessToken env o forceRefresh) ∧
    keeps_off other (getStableAccessToken env o forceRefresh).

(** The store holds a token under the client's key that the first reading
    of the clock finds unexpired. *)
Definition valid_token_cached (env : Remote) (options : WeixinOptions)
    (w : World) : Prop :=
  ∃ entry, tokens w !! cache_key options false = Some entry ∧
    clock env (clock_reads w) < expiresAt entry.

(** The store holds no entry under the client's key, or one that the first
    reading of the clock finds expired. *)
Definition no_valid_token_cached (env : Remote) (options : WeixinOptions)
    (w : World) : Prop :=
  tokens w !! cache_key options false = None ∨
  ∃ entry, tokens w !! cache_key options false = Some entry ∧
    expiresAt entry ≤ clock env (clock_reads w).

(** The token endpoint answers every call with a token, and a token is
    still unexpired, with the margin of ten seconds that the client takes
    off its lifetime, at the reading of the clock that follows the one it
    was stored at. *)
Definition tokens_outlive_a_step (env : Remote) : Prop :=
  ∀ n i, ∃ token expires_in,
    token_api env n = AccessTokenResponse token expires_in ∧
    clock env (S i) < clock env i + (expires_in - 10) * 1000.

(** A response that carries [{errcode: 40001}] as its JSON body. *)
Definition carries_40001 (res : Response) : Prop :=
  ∃ data, json_body res = Some data ∧ data !! "errcode" = Some (JNum 40001).

Section AfterToken.

Variable env : Remote.
Variable options : WeixinOptions.

(** One level of [#request], after its call of [getAccessToken]. *)
Definition request_after_token (fuel : nat) (method : Method) (path : string)
    (params : JsObject) (isRetry : bool) (accessToken : string) : M JsObject :=
  fun w1 =>
    match request env method path (Some accessToken) params w1 with
    | (Returned res, w2) =>
        match json_body res with
        | Some data =>
            if errcode_nonzero data then
              if negb isRetry && strict_eq_num (data !! "errcode") 40001 then
                match getAccessToken env options true w2 with
                | (Returned _, w3) =>
                    client_request env options fuel method path params true w3
                | (Thrown e, w3) => (Thrown e, w3)
                | (OutOfFuel, w3) => (OutOfFuel, w3)
                end
              else (Thrown (WeixinThrown (createError (failed_message path) data)), w2)
            else (Returned data, w2)
        | None => (Thrown JsonRejected, w2)
        end
    | (Thrown e, w2) => (Thrown e, w2)
    | (OutOfFuel, w2) => (OutOfFuel, w2)
    end.

(** One level of [#raw], after its call of [getAccessToken]. *)
Definition raw_after_token (fuel : nat) (method : Method) (path : string)
    (params : JsObject) (isRetry : bool) (accessToken : string) : M Response :=
  fun w1 =>
    match request env method path (Some accessToken) params w1 with
    | (Returned res, w2) =>
        if is_json_content res then
          match json_body res with
          | Some data =>
              if negb isRetry && strict_eq_num (data !! "errcode") 40001 then
                match getAccessToken env options true w2 with
                | (Returned _, w3) =>
                    client_raw env options fuel method path params true w3
                | (Thrown e, w3) => (Thrown e, w3)
                | (OutOfFuel, w3) => (OutOfFuel, w3)
                end
              else (Thrown (WeixinThrown (createError (failed_message path) data)), w2)
          | None => (Thrown JsonRejected, w2)
          end
        else (Returned res, w2)
    | (Thrown e, w2) => (Thrown e, w2)
    | (OutOfFuel, w2) => (OutOfFuel, w2)
    end.

End AfterToken.

(** The outcome the double-failure property asks of a call: it throws, it
    makes at most two requests, and when the path is well formed and the
    token endpoint answers with tokens it throws the classified error of
    the second response after exactly two requests and three invocations
    of [getAccessToken]. *)
Definition fails_after_one_retry {A : Type} (env : Remote) (call : M A)
    (path : string) (w : World) : Prop :=
  (∃ e, fst (call w) = Thrown e) ∧
  (data_calls (snd (call w)) ≤ data_calls w + 2)%nat ∧
  (starts_with_slash path →
   (∀ n, ∃ token expires_in,
      token_api env n = AccessTokenResponse token expires_in) →
   ∀ data2, json_body (data_api env (S (data_calls w))) = Some data2 →
     fst (call w)
       = Thrown (WeixinThrown (createError (failed_message path) data2)) ∧
     data_calls (snd (call w)) = (data_calls w + 2)%nat ∧
     manager_calls (snd (call w)) = (manager_calls w + 3)%nat).

(** The events of a retried request that follow its first call of
    [getAccessToken], the latest first: the first attempt sends the request
    with [token1]; the forced refresh deletes the entry, calls the token
    endpoint and stores [token2]; the retry reads [token2] from the cache
    and sends the request again. *)
Definition retry_events (options : WeixinOptions) (method : Method)
    (path : string) (params : JsObject) (token1 token2 : string) : list Event :=
  [ EvFetch (sent_call method path (Some token2) params);
    EvDateNow; EvStoreGet (cache_key options false); EvGetAccessToken false;
    EvDateNow; EvStoreSet (cache_key options false);
    EvCreateAccessToken (appid options) (secret options);
    EvStoreDelete (cache_key options false); EvGetAccessToken true;
    EvFetch (sent_call method path (Some token1) params) ].

(** A call that returns [result] after exactly this one retry: its events
    are those of its first call of [getAccessToken], which returns
    [token1], followed by [retry_events], where [token2] is the answer of
    the token endpoint to the forced refresh; two requests are made; the
    token endpoint is called twice when the first call of [getAccessToken]
    finds no valid token in the cache, and once when it finds one. *)
Definition retried_once {A : Type} (env : Remote) (options : WeixinOptions)
    (call : M A) (result : A) (method : Method) (path : string)
    (params : JsObject) (w : World) : Prop :=
  ∃ token1 token2 expires_in,
    fst (getAccessToken env options false w) = Returned token1 ∧
    token_api env (token_calls (snd (getAccessToken env options false w)))
      = AccessTokenResponse token2 expires_in ∧
    fst (call w) = Returned result ∧
    events (snd (call w))
      = (retry_events options method path params token1 token2
           ++ events (snd (getAccessToken env options false w)))%list ∧
    data_calls (snd (call w)) = (data_calls w + 2)%nat ∧
    (no_valid_token_cached env options w →
       token_calls (snd (call w)) = (token_calls w + 2)%nat) ∧
    (valid_token_cached env options w →
       token_calls (snd (call w)) = (token_calls w + 1)%nat).

(** * Concrete inputs *)

Definition demo_options : WeixinOptions := mkOptions "wx1234" "0123456789abcdef".

Definition response_40001 : Response :=
  mkResponse (Some "application/json; charset=UTF-8")
    (Some {[ "errcode" := JNum 40001; "errmsg" := JStr "invalid credential" ]}).

Definition response_ok : Response :=
  mkResponse (Some "application/json")
    (Some {[ "errcode" := JNum 0; "errmsg" := JStr "ok" ]}).

Definition response_no_errcode : Response :=
  mkResponse (Some "application/json") (Some {[ "quota" := JOther 0 ]}).

Definition response_image : Response := mkResponse (Some "image/jpeg") None.

(** The body of the stale-token error under a content type that is not
    JSON. *)
Definition response_40001_as_text : Response :=
  mkResponse (Some "text/plain")
    (Some {[ "errcode" := JNum 40001; "errmsg" := JStr "invalid credential" ]}).

(** A remote whose clock advances by one millisecond per reading, whose
    token endpoints answer ["token-1"], then ["token-2"], valid for two
    hours, and whose responses to requests are [responses]. *)
Definition demo_remote (responses : nat → Response) : Remote :=
  mkRemote (λ n, Z.of_nat n)
    (λ n, AccessTokenResponse (match n with O => "token-1" | _ => "token-2" end) 7200)
    (λ n, AccessTokenResponse (match n with O => "stable-1" | _ => "stable-2" end) 7200)
    responses.

(** A remote like [demo_remote] whose tokens are valid for five seconds,
    less than the margin of ten seconds that the client takes off. *)
Definition short_lived_remote (responses : nat → Response) : Remote :=
  mkRemote (λ n, Z.of_nat n)
    (λ _, AccessTokenResponse "short-lived" 5)
    (λ _, AccessTokenResponse "short-lived-stable" 5)
    responses.

(** A remote whose token endpoints answer an error payload. *)
Definition failing_remote : Remote :=
  mkRemote (λ n, Z.of_nat n)
    (λ _, TokenErrorResponse {[ "errcode" := JNum 40125; "errmsg" := JStr "invalid appsecret" ]})
    (λ _, TokenErrorResponse {[ "errcode" := JNum 45009; "errmsg" := JStr "reach max api daily quota limit" ]})
    (λ _, response_ok).

Definition empty_world : World := mkWorld ∅ [].

(** A store that already holds a token of [demo_options], valid for a long
    time. *)
Definition warm_world : World :=
  mkWorld {[ cache_key demo_options false := mkEntry (mkToken "cached" None) 1000000;
             cache_key demo_options true := mkEntry (mkToken "cached-stable" None) 1000000 ]} [].

(** * The rest of the client and its wrappers *)

Section ClientMore.

Variable env : Remote.
Variable options : WeixinOptions.

(** ** memory-store.ts: [_clear] *)

Definition store_clear : M unit := modify_tokens (fun _ => ∅).

(** ** fetcher.ts: the exchanges of an authorization code *)

Definition exchangeCodeForSession (appid secret code : string) : M JsObject :=
  let! res := request env GET "/sns/jscode2session" None
                {[ "appid" := JStr appid;
                   "secret" := JStr secret;
                   "js_code" := JStr code;
                   "grant_type" := JStr "authorization_code" ]} in
  json res.

Definition exchangeCodeForToken (appid secret code : string) : M JsObject :=
  let! res := request env GET "/sns/oauth2/access_token" None
                {[ "appid" := JStr appid;
                   "secret" := JStr secret;
                   "code" := JStr code;
                   "grant_type" := JStr "authorization_code" ]} in
  json res.

(** ** client.ts: sessions, tokens from a code, and the quota *)

Definition createSessionFromCode (code : string) : M JsObject :=
  let! data := exchangeCodeForSession (appid options) (secret options) code in
  match data !! "openid" with
  | Some _ => ret data
  | None =>
      throw (WeixinThrown
        (createError "Unable to create a session from an authorization code." data))
  end.

Definition createTokenFromCode (code : string) : M JsObject :=
  let! data := exchangeCodeForToken (appid options) (secret options) code in
  match data !! "openid" with
  | Some _ => ret data
  | None =>
      throw (WeixinThrown
        (createError "Unable to create a token from an authorization code." data))
  end.

(** [getAPIQuota]; the result is [data.quota], [None] being [undefined]. *)
Definition getAPIQuota (path : string) : M (option JsValue) :=
  let! data := post env options "/cgi-bin/openapi/quota/get"
                 {[ "cgi_path" := JStr path ]} in
  ret (data !! "quota").

(** ** miniprogram.openapi.ts *)

(** The object [{type, stream}] of [getUnlimitedQRCode]; the stream is the
    body of the response it is taken from. *)
Record QRCode : Type := mkQRCode {
  qr_type : string;
  qr_stream_of : Response
}.

(** [x || 'image/jpeg'] for a header value: [null] and the empty string
    give the default. *)
Definition or_jpeg (header : option string) : string :=
  match header with
  | Some EmptyString => "image/jpeg"
  | Some ct => ct
  | None => "image/jpeg"
  end.

(** [getUnlimitedQRCode(scene, options?)]. In [{ scene, ...options }] the
    keys of [options] come last and win. *)
Definition getUnlimitedQRCode (scene : string) (qr_options : option JsObject)
    : M QRCode :=
  let! res := postRaw env options "/wxa/getwxacodeunlimit"
                (default ∅ qr_options ∪ {[ "scene" := JStr scene ]}) in
  ret (mkQRCode (or_jpeg (content_type res)) res).

Definition getSession (code : string) : M JsObject :=
  createSessionFromCode code.

Definition getDailySummary (beginDate endDate : string) : M JsObject :=
  post env options "/datacube/getweanalysisappiddailysummarytrend"
    {[ "begin_date" := JStr beginDate; "end_date" := JStr endDate ]}.

End ClientMore.

(** ** More vocabulary *)

(** No character of the string is a colon. *)
Fixpoint no_colon (s : string) : bool :=
  match s with
  | EmptyString => true
  | String c s' => if ascii_dec c ":"%char then false else no_colon s'
  end.

(** The clock never goes backwards. *)
Definition monotone_clock (env : Remote) : Prop :=
  ∀ i j, (i ≤ j)%nat → clock env i ≤ clock env j.

(** A call that ends with the error of a failed token fetch, after one
    network call, the client's entry being gone from the store. *)
Definition ends_with_token_error {A : Type} (options : WeixinOptions)
    (payload : JsObject) (call : M A) (w : World) : Prop :=
  fst (call w)
    = Thrown (WeixinThrown (createError "Unable to get an access token." payload)) ∧
  data_calls (snd (call w)) = S (data_calls w) ∧
  tokens (snd (call w)) !! cache_key options false = None.

(** A call that makes no network call of its own but has asked the token
    manager first: it ends where [getAccessToken()] ends, with the
    input-validation error if that call returned a token. *)
Definition rejected_after_token {A : Type} (env : Remote)
    (options : WeixinOptions) (call : M A) (w : World) : Prop :=
  data_calls (snd (call w)) = data_calls w ∧
  manager_calls (snd (call w)) = S (manager_calls w) ∧
  snd (call w) = snd (getAccessToken env options false w) ∧
  (∀ accessToken,
     fst (getAccessToken env options false w) = Returned accessToken →
     fst (call w) = Thrown (PlainError "Path must start with '/'")).

(** A call that throws the classified body [data] as a failed request
    after exactly two network calls. *)
Definition fails_on_second_response {A : Type} (call : M A) (path : string)
    (data : JsObject) (w : World) : Prop :=
  fst (call w) = Thrown (WeixinThrown (createError (failed_message path) data)) ∧
  data_calls (snd (call w)) = (data_calls w + 2)%nat.

(** More concrete inputs. *)
Definition response_quota_exceeded : Response :=
  mkResponse (Some "application/json")
    (Some {[ "errcode" := JNum 45009;
             "errmsg" := JStr "reach max api daily quota limit" ]}).

Definition response_invalid_code : Response :=
  mkResponse (Some "application/json")
    (Some {[ "errcode" := JNum 40029; "errmsg" := JStr "invalid code" ]}).

Definition response_session : Response :=
  mkResponse (Some "application/json")
    (Some {[ "session_key" := JStr "gPXJstHE7Gviep8pOAfvZQ==";
             "openid" := JStr "olQ7rLmm83trKrCNaof6Gf0IkDwU" ]}).

(** * Facts about strings *)

Module StrFacts.
Import Str.

Lemma app_cons (c : ascii) (a b : string) :
  String c a +:+ b = String c (a +:+ b).
Proof. reflexivity. Qed.

Lemma app_nil_l (b : string) : "" +:+ b = b.
Proof. reflexivity. Qed.

Lemma app_nil_r (s : string) : s +:+ "" = s.
Proof.
  induction s as [|c s IH]; [done |]. by rewrite app_cons, IH.
Qed.

Lemma app_assoc (a b c : string) : (a +:+ b) +:+ c = a +:+ (b +:+ c).
Proof.
  induction a as [|x a IH]; [done |]. by rewrite !app_cons, IH.
Qed.

Lemma app_inv_head (a x y : string) : a +:+ x = a +:+ y → x = y.
Proof.
  induction a as [|c a IH]; [done |].
  rewrite !app_cons. intros [= H]. auto.
Qed.

Lemma length_app (a b : string) :
  String.length (a +:+ b) = (String.length a + String.length b)%nat.
Proof.
  induction a as [|c a IH]; [done |].
  rewrite app_cons. simpl. by rewrite IH.
Qed.

Lemma length_slice_to (n : nat) (s : string) :
  (String.length (slice_to n s) <= n)%nat.
Proof.
  unfold slice_to. revert s.
  induction n as [|n IH]; intros [|c s]; simpl; try lia.
  specialize (IH s). lia.
Qed.

Lemma slice_to_idem (n : nat) (s : string) :
  slice_to n (slice_to n s) = slice_to n s.
Proof.
  unfold slice_to. revert s.
  induction n as [|n IH]; intros [|c s]; simpl; try done.
  by rewrite IH.
Qed.

Lemma at_last_snoc (t : string) (c : ascii) :
  at_last (t +:+ String c "") = Some c.
Proof.
  induction t as [|x t IH]; [done |].
  rewrite app_cons. simpl. rewrite IH.
  destruct t; [done |]. by rewrite app_cons.
Qed.

Lemma slice_but_last_snoc (t : string) (c : ascii) :
  slice_but_last (t +:+ String c "") = t.
Proof.
  induction t as [|x t IH]; [done |].
  rewrite app_cons. simpl. rewrite IH.
  destruct t; [done |]. by rewrite app_cons.
Qed.

Lemma at_last_Some (s : string) (c : ascii) :
  at_last s = Some c → s = slice_but_last s +:+ String c "".
Proof.
  induction s as [|x s IH]; simpl; [done |].
  destruct s as [|y s']; [by intros [= ->] |].
  intros H. rewrite app_cons. by rewrite <- (IH H).
Qed.

Lemma first_is_slash_true (s : string) :
  first_is_slash s = true ↔ ∃ s', s = String "/"%char s'.
Proof.
  destruct s as [|c s]; simpl.
  - split; [done | by intros [? ?]].
  - destruct (ascii_dec c "/"%char) as [->|Hne]; split; eauto.
    + done.
    + intros [s' [= ? ?]]. done.
Qed.

End StrFacts.

(** * Properties *)

(** Unfold the monadic code of the token manager and of the store. *)
Ltac run :=
  unfold getAccessToken, getStableAccessToken, store_get, store_set,
    store_delete, getTokenData, createAccessToken, createStableAccessToken,
    date_now, bind, ret, throw, emit, read_tokens, modify_tokens,
    cache_key, fresh_entry, clock_reads, token_calls, stable_calls,
    data_calls, manager_calls in *;
  simpl in *.

(** Split on the comparison of an expiry with the clock. *)
Ltac case_leb :=
  match goal with
  | |- context [Z.leb ?a ?b] => destruct (Z.leb_spec a b)
  end.

(** Compute the counters of a world whose latest events are explicit. *)
Ltac counters :=
  unfold manager_calls, token_calls, data_calls, clock_reads in *; simpl in *.

(** ** The tests of the client, in the words of the properties *)

Lemma startsWith_true (p s : string) :
  Str.startsWith p s = true ↔ ∃ rest, s = p +:+ rest.
Proof.
  unfold Str.startsWith. revert s.
  induction p as [|c p IH]; intros s.
  - split; [intros _; by exists s | by destruct s].
  - destruct s as [|d s]; simpl.
    + split; [done | by intros [rest ?]].
    + destruct (ascii_dec c d) as [->|Hne].
      * rewrite IH. split.
        -- intros [rest ->]. exists rest. by rewrite StrFacts.app_cons.
        -- intros [rest H]. rewrite StrFacts.app_cons in H.
           injection H as ->. by exists rest.
      * split; [done |]. intros [rest H]. rewrite StrFacts.app_cons in H.
        injection H as <- _. done.
Qed.

Lemma json_typed_iff (res : Response) :
  is_json_content res = true ↔ json_typed res.
Proof.
  unfold is_json_content, json_typed.
  destruct (content_type res) as [ct|].
  - rewrite startsWith_true. split.
    + intros [rest ->]. by exists rest.
    + intros [rest [= ->]]. by exists rest.
  - split; [done | by intros [? ?]].
Qed.

Lemma not_json_typed_iff (res : Response) :
  is_json_content res = false ↔ not_json_typed res.
Proof.
  split.
  - intros H rest Hct.
    assert (is_json_content res = true) by (apply json_typed_iff; by exists rest).
    congruence.
  - intros H. destruct (is_json_content res) eqn:E; [|done].
    apply json_typed_iff in E as [rest Hct]. by destruct (H rest).
Qed.

Lemma errcode_nonzero_iff (data : JsObject) :
  errcode_nonzero data = true ↔ reports_error data.
Proof.
  unfold errcode_nonzero, reports_error, strict_eq_num.
  destruct (data !! "errcode") as [v|].
  - split.
    + intros H. exists v. split; [done |]. intros ->. done.
    + intros (code & [= <-] & Hne). destruct v as [z| |]; try done.
      destruct (Z.eqb_spec z 0) as [->|]; done.
  - split; [done | by intros (? & ? & _)].
Qed.

Lemma errcode_absent_or_zero (data : JsObject) :
  data !! "errcode" = None ∨ data !! "errcode" = Some (JNum 0) →
  errcode_nonzero data = false.
Proof. unfold errcode_nonzero. by intros [-> | ->]. Qed.

Lemma other_error_flags (data : JsObject) :
  other_error data →
  errcode_nonzero data = true ∧ data !! "errcode" ≠ Some (JNum 40001).
Proof.
  intros (code & Hc & H0 & H1). split.
  - apply errcode_nonzero_iff. by exists code.
  - rewrite Hc. by intros [= ->].
Qed.

Lemma not_40001 (data : JsObject) :
  data !! "errcode" ≠ Some (JNum 40001) →
  strict_eq_num (data !! "errcode") 40001 = false.
Proof.
  intros H. unfold strict_eq_num.
  destruct (data !! "errcode") as [[z| |]|]; try done.
  destruct (Z.eqb_spec z 40001) as [->|]; done.
Qed.

Lemma starts_with_slash_iff (path : string) :
  Str.first_is_slash path = true ↔ starts_with_slash path.
Proof. apply StrFacts.first_is_slash_true. Qed.

(** ** The error classifier *)

Lemma authcodeErrorMap_table (v : option JsValue) (phrase : string) :
  authcodeErrorMap v = Some phrase ↔
  ∃ code, v = Some (JNum code) ∧
    ((code = 40029 ∧ phrase = "invalid code") ∨
     (code = 40163 ∧ phrase = "code has been used") ∨
     (code = 42003 ∧ phrase = "code has expired")).
Proof.
  unfold authcodeErrorMap, strict_eq_num.
  destruct v as [[z|s|n]|]; try (split; [done | by intros (? & [= ] & _)]).
  destruct (Z.eqb_spec z 40029) as [->|H1].
  { split; [intros [= <-]; eauto 6 |].
    intros (c & [= <-] & [[_ ->]|[[? _]|[? _]]]); [done | lia | lia]. }
  destruct (Z.eqb_spec z 40163) as [->|H2].
  { split; [intros [= <-]; eauto 6 |].
    intros (c & [= <-] & [[? _]|[[_ ->]|[? _]]]); [lia | done | lia]. }
  destruct (Z.eqb_spec z 42003) as [->|H3].
  { split; [intros [= <-]; eauto 7 |].
    intros (c & [= <-] & [[? _]|[[? _]|[_ ->]]]); [lia | lia | done]. }
  split; [done |].
  intros (c & [= <-] & [[? _]|[[? _]|[? _]]]); lia.
Qed.

Lemma ends_with_dot_snoc (t : string) : ends_with_dot (t +:+ ".") = true.
Proof. unfold ends_with_dot. by rewrite StrFacts.at_last_snoc. Qed.

Lemma ends_with_dot_inv (s : string) :
  ends_with_dot s = true → s = Str.slice_but_last s +:+ ".".
Proof.
  unfold ends_with_dot.
  destruct (Str.at_last s) as [c|] eqn:E; [|done].
  destruct (ascii_dec c "."%char) as [->|]; [|done].
  intros _. by apply StrFacts.at_last_Some.
Qed.

Lemma formatMessage_dot (t detail : string) :
  formatMessage (t +:+ ".") detail = t +:+ ": " +:+ detail +:+ ".".
Proof.
  unfold formatMessage.
  by rewrite ends_with_dot_snoc, StrFacts.slice_but_last_snoc.
Qed.

Lemma formatMessage_no_dot (title detail : string) :
  (∀ t, title ≠ t +:+ ".") →
  formatMessage title detail = title +:+ ": " +:+ detail.
Proof.
  intros Hno. unfold formatMessage.
  destruct (ends_with_dot title) eqn:E; [|done].
  exfalso. exact (Hno _ (ends_with_dot_inv _ E)).
Qed.

(** C6. [createError] classifies an error response by its [errcode]: a code
    of the authorization-code table (40029, 40163, 42003) gives a
    [WeixinAuthCodeError] whose message is the context message combined
    with the phrase of that code (a trailing '.' is moved behind the
    phrase); any other response gives a plain [WeixinError] with the
    context message unchanged; in both cases the error keeps the response
    and [toJSON] is the object of its name, message and response. *)
Theorem createError_classifies (msg : string) (resp : JsObject) :
  (∀ code phrase,
     resp !! "errcode" = Some (JNum code) →
     (code = 40029 ∧ phrase = "invalid code") ∨
     (code = 40163 ∧ phrase = "code has been used") ∨
     (code = 42003 ∧ phrase = "code has expired") →
     error_class (createError msg resp) = WeixinAuthCodeErrorClass ∧
     name (createError msg resp) = "WeixinAuthCodeError" ∧
     (∀ t, msg = t +:+ "." →
        message (createError msg resp) = t +:+ ": " +:+ phrase +:+ ".") ∧
     ((∀ t, msg ≠ t +:+ ".") →
        message (createError msg resp) = msg +:+ ": " +:+ phrase)) ∧
  ((∀ code, resp !! "errcode" = Some (JNum code) →
      code ≠ 40029 ∧ code ≠ 40163 ∧ code ≠ 42003) →
     error_class (createError msg resp) = WeixinErrorClass ∧
     name (createError msg resp) = "WeixinError" ∧
     message (createError msg resp) = msg) ∧
  response (createError msg resp) = resp ∧
  toJSON (createError msg resp) =
    [ ("name", FString (name (createError msg resp)));
      ("message", FString (message (createError msg resp)));
      ("response", FObject resp) ].
Proof.
  split; [|split; [|split]].
  - intros code phrase Hcode Htable.
    assert (Hmap : authcodeErrorMap (resp !! "errcode") = Some phrase)
      by (apply authcodeErrorMap_table; eauto).
    unfold createError, name. rewrite Hmap. simpl.
    repeat split; [|apply formatMessage_no_dot].
    intros t ->. apply formatMessage_dot.
  - intros Hother. unfold createError, name.
    destruct (authcodeErrorMap (resp !! "errcode")) as [phrase|] eqn:Hmap; [|done].
    apply authcodeErrorMap_table in Hmap as (code & Hcode & Htable).
    destruct (Hother code Hcode) as (? & ? & ?).
    destruct Htable as [[? _]|[[? _]|[? _]]]; lia.
  - unfold createError. by destruct (authcodeErrorMap _).
  - unfold toJSON, createError. by destruct (authcodeErrorMap _).
Qed.

(** The two cases of the repository's own test of [createError]. *)
Lemma createError_classifies_witness :
  message (createError "Unable to create a session."
             {[ "errcode" := JNum 40029; "errmsg" := JStr "invalid code" ]})
    = "Unable to create a session: invalid code." ∧
  message (createError "Unable to create a session."
             {[ "errcode" := JNum 40013; "errmsg" := JStr "invalid appid" ]})
    = "Unable to create a session.".
Proof.
  split.
  - pose proof (createError_classifies "Unable to create a session."
      {[ "errcode" := JNum 40029; "errmsg" := JStr "invalid code" ]}) as [H _].
    destruct (H 40029 "invalid code") as (_ & _ & Hdot & _).
    + vm_compute. reflexivity.
    + left. split; reflexivity.
    + apply (Hdot "Unable to create a session"). reflexivity.
  - pose proof (createError_classifies "Unable to create a session."
      {[ "errcode" := JNum 40013; "errmsg" := JStr "invalid appid" ]}) as (_ & H & _).
    apply H. intros code Hcode.
    assert (code = 40013) as -> by (vm_compute in Hcode; congruence).
    lia.
Defined.

(** ** The composite key *)

Lemma app_inv_tail_stable (x y : string) :
  (String.length x <= 6)%nat → (String.length y <= 6)%nat →
  x +:+ ":stable" = y +:+ ":stable" → x = y.
Proof.
  revert y. induction x as [|c x IH]; intros [|d y] Hx Hy H.
  - done.
  - apply (f_equal String.length) in H.
    rewrite StrFacts.app_nil_l, StrFacts.length_app in H. simpl in *. lia.
  - apply (f_equal String.length) in H.
    rewrite StrFacts.app_nil_l, StrFacts.length_app in H. simpl in *. lia.
  - rewrite !StrFacts.app_cons in H. injection H as -> H.
    f_equal. apply IH; simpl in *; [lia | lia | done].
Qed.

Lemma compositeKey_inj (appid p1 p2 : string) (st1 st2 : bool) :
  compositeKey appid p1 st1 = compositeKey appid p2 st2 →
  Str.slice_to 6 p1 = Str.slice_to 6 p2 ∧ st1 = st2.
Proof.
  unfold compositeKey. intros H.
  apply StrFacts.app_inv_head in H. apply StrFacts.app_inv_head in H.
  pose proof (StrFacts.length_slice_to 6 p1) as L1.
  pose proof (StrFacts.length_slice_to 6 p2) as L2.
  destruct st1, st2.
  - split; [|done]. by apply app_inv_tail_stable.
  - exfalso. apply (f_equal String.length) in H.
    rewrite !StrFacts.length_app in H. simpl in H. lia.
  - exfalso. apply (f_equal String.length) in H.
    rewrite !StrFacts.length_app in H. simpl in H. lia.
  - split; [|done]. by rewrite !StrFacts.app_nil_r in H.
Qed.

(** ** The transport *)

(** C7. A path that does not start with '/' makes [request] throw the
    input-validation error, for GET and for POST, whatever the access token
    and the parameters, and the world is left as it was: no network call is
    made. *)
Theorem request_rejects_bad_path (env : Remote) (method : Method)
    (path : string) (accessToken : option string) (params : JsObject)
    (w : World) :
  (∀ rest, path ≠ String "/"%char rest) →
  request env method path accessToken params w
    = (Thrown (PlainError "Path must start with '/'"), w) ∧
  data_calls (snd (request env method path accessToken params w))
    = data_calls w.
Proof.
  intros Hbad.
  assert (Str.first_is_slash path = false) as Hguard.
  { destruct (Str.first_is_slash path) eqn:E; [|done].
    apply StrFacts.first_is_slash_true in E as [rest ->]. by destruct (Hbad rest). }
  unfold request. rewrite Hguard. done.
Qed.

Lemma request_rejects_bad_path_witness :
  request failing_remote POST "cgi-bin/token" (Some "token") ∅ empty_world
    = (Thrown (PlainError "Path must start with '/'"), empty_world).
Proof.
  apply request_rejects_bad_path. intros rest. discriminate.
Defined.

(** The literal paths of [createAccessToken] and [createStableAccessToken]
    pass the guard of [request]: these calls always reach the network. *)
Lemma token_paths_pass_guard :
  Str.first_is_slash "/cgi-bin/token" = true ∧
  Str.first_is_slash "/cgi-bin/stable_token" = true.
Proof. split; reflexivity. Qed.

(** ** The memory store *)

Section Store.

Variable env : Remote.

Lemma store_set_eq (key : string) (token : WeixinToken) (ttl : Z) (w : World) :
  store_set env key token ttl w =
    (Returned tt,
     mkWorld (<[key := mkEntry token (clock env (clock_reads w) + ttl * 1000)]>
                (tokens w))
             (EvDateNow :: EvStoreSet key :: events w)).
Proof. reflexivity. Qed.

Lemma store_delete_eq (key : string) (w : World) :
  store_delete key w =
    (Returned tt,
     mkWorld (delete key (tokens w)) (EvStoreDelete key :: events w)).
Proof. reflexivity. Qed.

Lemma store_get_absent (key : string) (w : World) :
  tokens w !! key = None →
  store_get env key w =
    (Returned None, mkWorld (tokens w) (EvStoreGet key :: events w)).
Proof.
  intros H. unfold store_get, getTokenData, bind, emit, read_tokens. simpl.
  by rewrite H.
Qed.

Lemma store_get_fresh (key : string) (entry : Token) (w : World) :
  tokens w !! key = Some entry →
  clock env (clock_reads w) < expiresAt entry →
  store_get env key w =
    (Returned (Some (data entry)),
     mkWorld (tokens w) (EvDateNow :: EvStoreGet key :: events w)).
Proof.
  intros H Hlt. unfold store_get, getTokenData, bind, emit, read_tokens. simpl.
  rewrite H. unfold date_now, clock_reads. simpl.
  destruct (Z.leb_spec (expiresAt entry) (clock env (count is_clock_read (events w))));
    [unfold clock_reads in Hlt; lia | done].
Qed.

Lemma store_get_expired (key : string) (entry : Token) (w : World) :
  tokens w !! key = Some entry →
  expiresAt entry ≤ clock env (clock_reads w) →
  store_get env key w =
    (Returned None,
     mkWorld (delete key (tokens w)) (EvDateNow :: EvStoreGet key :: events w)).
Proof.
  intros H Hle. unfold store_get, getTokenData, bind, emit, read_tokens. simpl.
  rewrite H. unfold date_now, clock_reads. simpl.
  destruct (Z.leb_spec (expiresAt entry) (clock env (count is_clock_read (events w))));
    [done | unfold clock_reads in Hle; lia].
Qed.

(** C9. A token stored under a key with a TTL of [ttl] seconds, at the
    clock reading [t0], is returned unchanged by every [get] of that key
    whose clock reading [t1] is less than [ttl * 1000] milliseconds after
    [t0], the store being left as it is; a [get] at or after that instant
    returns [null] and deletes the entry. The [get] may happen in any later
    world in which the entry has not been written again. *)
Theorem store_roundtrip_until_expiry (key : string) (token : WeixinToken)
    (ttl : Z) (w w2 : World) :
  let w1 := snd (store_set env key token ttl w) in
  let t0 := clock env (clock_reads w) in
  let t1 := clock env (clock_reads w2) in
  tokens w2 !! key = tokens w1 !! key →
  fst (store_set env key token ttl w) = Returned tt ∧
  (t1 - t0 < ttl * 1000 →
     fst (store_get env key w2) = Returned (Some token) ∧
     tokens (snd (store_get env key w2)) = tokens w2) ∧
  (ttl * 1000 ≤ t1 - t0 →
     fst (store_get env key w2) = Returned None ∧
     tokens (snd (store_get env key w2)) = delete key (tokens w2) ∧
     tokens (snd (store_get env key w2)) !! key = None).
Proof.
  intros w1 t0 t1 Hsame. subst w1. rewrite store_set_eq in *. simpl in Hsame.
  rewrite lookup_insert_eq in Hsame.
  split; [done |]. split; intros Ht.
  - rewrite (store_get_fresh _ _ _ Hsame); [done |]. simpl. lia.
  - rewrite (store_get_expired _ _ _ Hsame); [|simpl; lia]. simpl.
    by rewrite lookup_delete_eq.
Qed.

End Store.

(** A token stored for one second is read back one millisecond later; a
    token stored for zero seconds is not. *)
Lemma store_roundtrip_until_expiry_witness :
  let remote := demo_remote (λ _, response_ok) in
  fst (store_get remote "key"
         (snd (store_set remote "key" (mkToken "token" None) 1 empty_world)))
    = Returned (Some (mkToken "token" None)) ∧
  fst (store_get remote "key"
         (snd (store_set remote "key" (mkToken "token" None) 0 empty_world)))
    = Returned None.
Proof.
  intros remote. split.
  - refine (proj1 (proj1 (proj2
      (store_roundtrip_until_expiry remote "key" (mkToken "token" None) 1
         empty_world
         (snd (store_set remote "key" (mkToken "token" None) 1 empty_world))
         _)) _)).
    + reflexivity.
    + vm_compute. reflexivity.
  - refine (proj1 (proj2 (proj2
      (store_roundtrip_until_expiry remote "key" (mkToken "token" None) 0
         empty_world
         (snd (store_set remote "key" (mkToken "token" None) 0 empty_world))
         _)) _)).
    + reflexivity.
    + vm_compute. discriminate.
Defined.

(** The cases of the repository's tests of the store, on a clock that
    reads 0, then 1, then 1001 milliseconds. *)
Example store_gets_nonexistent :
  fst (store_get (demo_remote (λ _, response_ok)) "nonexistent" empty_world)
    = Returned None.
Proof. reflexivity. Qed.

Example store_gets_expired :
  let remote :=
    mkRemote (λ n, match n with 0%nat => 0 | 1%nat => 1 | _ => 1001 end)
      (λ _, TokenErrorResponse ∅) (λ _, TokenErrorResponse ∅)
      (λ _, response_ok) in
  let token := mkToken "token" None in
  let w1 := snd (store_set remote "key" token 1 empty_world) in
  let w2 := snd (store_get remote "key" w1) in
  fst (store_get remote "key" w1) = Returned (Some token) ∧
  fst (store_get remote "key" w2) = Returned None ∧
  tokens (snd (store_get remote "key" w2)) = ∅.
Proof. vm_compute. repeat split. Qed.

Example store_deletes_existing :
  let remote := demo_remote (λ _, response_ok) in
  let w1 := snd (store_set remote "key" (mkToken "token" None) 1 empty_world) in
  fst (store_get remote "key" (snd (store_delete "key" w1))) = Returned None ∧
  fst (store_delete "nonexistent" empty_world) = Returned tt.
Proof. vm_compute. repeat split. Qed.

(** ** The token manager *)

Section Manager.

Variable env : Remote.
Variable options : WeixinOptions.

Lemma getAccessToken_hit (w : World) (entry : Token) :
  tokens w !! cache_key options false = Some entry →
  clock env (clock_reads w) < expiresAt entry →
  getAccessToken env options false w =
    (Returned (access_token (data entry)),
     mkWorld (tokens w)
       (EvDateNow :: EvStoreGet (cache_key options false)
          :: EvGetAccessToken false :: events w)).
Proof.
  intros H Hlt. run. rewrite H. simpl. case_leb; [lia | done].
Qed.

Lemma getAccessToken_miss (w : World) :
  tokens w !! cache_key options false = None →
  getAccessToken env options false w =
    match token_api env (token_calls w) with
    | AccessTokenResponse token expires_in =>
        (Returned token,
         mkWorld (<[cache_key options false :=
                      fresh_entry token expires_in (clock env (clock_reads w))]>
                    (tokens w))
           (EvDateNow :: EvStoreSet (cache_key options false)
              :: EvCreateAccessToken (appid options) (secret options)
              :: EvStoreGet (cache_key options false)
              :: EvGetAccessToken false :: events w))
    | answer =>
        (Thrown (token_failure "Unable to get an access token." answer),
         mkWorld (tokens w)
           (EvCreateAccessToken (appid options) (secret options)
              :: EvStoreGet (cache_key options false)
              :: EvGetAccessToken false :: events w))
    end.
Proof.
  intros H. run. rewrite H. simpl.
  by destruct (token_api env (count is_token_call (events w))).
Qed.

Lemma getAccessToken_force (w : World) :
  getAccessToken env options true w =
    match token_api env (token_calls w) with
    | AccessTokenResponse token expires_in =>
        (Returned token,
         mkWorld (<[cache_key options false :=
                      fresh_entry token expires_in (clock env (clock_reads w))]>
                    (delete (cache_key options false) (tokens w)))
           (EvDateNow :: EvStoreSet (cache_key options false)
              :: EvCreateAccessToken (appid options) (secret options)
              :: EvStoreDelete (cache_key options false)
              :: EvGetAccessToken true :: events w))
    | answer =>
        (Thrown (token_failure "Unable to get an access token." answer),
         mkWorld (delete (cache_key options false) (tokens w))
           (EvCreateAccessToken (appid options) (secret options)
              :: EvStoreDelete (cache_key options false)
              :: EvGetAccessToken true :: events w))
    end.
Proof.
  run. by destruct (token_api env (count is_token_call (events w))).
Qed.

Lemma getStableAccessToken_hit (w : World) (entry : Token) :
  tokens w !! cache_key options true = Some entry →
  clock env (clock_reads w) < expiresAt entry →
  getStableAccessToken env options false w =
    (Returned (access_token (data entry)),
     mkWorld (tokens w)
       (EvDateNow :: EvStoreGet (cache_key options true)
          :: EvGetStableAccessToken false :: events w)).
Proof.
  intros H Hlt. run. rewrite H. simpl. case_leb; [lia | done].
Qed.

Lemma getStableAccessToken_miss (w : World) :
  tokens w !! cache_key options true = None →
  getStableAccessToken env options false w =
    match stable_api env (stable_calls w) with
    | AccessTokenResponse token expires_in =>
        (Returned token,
         mkWorld (<[cache_key options true :=
                      fresh_entry token expires_in (clock env (clock_reads w))]>
                    (tokens w))
           (EvDateNow :: EvStoreSet (cache_key options true)
              :: EvCreateStableAccessToken (appid options) (secret options) false
              :: EvStoreGet (cache_key options true)
              :: EvGetStableAccessToken false :: events w))
    | answer =>
        (Thrown (token_failure "Unable to get a stable access token." answer),
         mkWorld (tokens w)
           (EvCreateStableAccessToken (appid options) (secret options) false
              :: EvStoreGet (cache_key options true)
              :: EvGetStableAccessToken false :: events w))
    end.
Proof.
  intros H. run. rewrite H. simpl.
  by destruct (stable_api env (count is_stable_call (events w))).
Qed.

Lemma getStableAccessToken_force (w : World) :
  getStableAccessToken env options true w =
    match stable_api env (stable_calls w) with
    | AccessTokenResponse token expires_in =>
        (Returned token,
         mkWorld (<[cache_key options true :=
                      fresh_entry token expires_in (clock env (clock_reads w))]>
                    (delete (cache_key options true) (tokens w)))
           (EvDateNow :: EvStoreSet (cache_key options true)
              :: EvCreateStableAccessToken (appid options) (secret options) true
              :: EvStoreDelete (cache_key options true)
              :: EvGetStableAccessToken true :: events w))
    | answer =>
        (Thrown (token_failure "Unable to get a stable access token." answer),
         mkWorld (delete (cache_key options true) (tokens w))
           (EvCreateStableAccessToken (appid options) (secret options) true
              :: EvStoreDelete (cache_key options true)
              :: EvGetStableAccessToken true :: events w))
    end.
Proof.
  run. by destruct (stable_api env (count is_stable_call (events w))).
Qed.

Lemma getAccessToken_expired (w : World) (entry : Token) :
  tokens w !! cache_key options false = Some entry →
  expiresAt entry ≤ clock env (clock_reads w) →
  getAccessToken env options false w =
    match token_api env (token_calls w) with
    | AccessTokenResponse token expires_in =>
        (Returned token,
         mkWorld (<[cache_key options false :=
                      fresh_entry token expires_in (clock env (S (clock_reads w)))]>
                    (delete (cache_key options false) (tokens w)))
           (EvDateNow :: EvStoreSet (cache_key options false)
              :: EvCreateAccessToken (appid options) (secret options)
              :: EvDateNow :: EvStoreGet (cache_key options false)
              :: EvGetAccessToken false :: events w))
    | answer =>
        (Thrown (token_failure "Unable to get an access token." answer),
         mkWorld (delete (cache_key options false) (tokens w))
           (EvCreateAccessToken (appid options) (secret options)
              :: EvDateNow :: EvStoreGet (cache_key options false)
              :: EvGetAccessToken false :: events w))
    end.
Proof.
  intros H Hle. run. rewrite H. simpl. case_leb; [|lia]. simpl.
  by destruct (token_api env (count is_token_call (events w))).
Qed.

(** When the token endpoint answers every call with a token,
    [getAccessToken] returns one. *)
Lemma getAccessToken_succeeds (forceRefresh : bool) (w : World) :
  (∀ n, ∃ token expires_in,
     token_api env n = AccessTokenResponse token expires_in) →
  ∃ token, fst (getAccessToken env options forceRefresh w) = Returned token.
Proof.
  intros Hapi. destruct (Hapi (token_calls w)) as (t & e & Ht).
  destruct forceRefresh.
  - rewrite getAccessToken_force, Ht. by exists t.
  - destruct (tokens w !! cache_key options false) as [entry|] eqn:E.
    + destruct (Z.lt_ge_cases (clock env (clock_reads w)) (expiresAt entry)).
      * rewrite (getAccessToken_hit _ _ E) by done. by eexists.
      * rewrite (getAccessToken_expired _ _ E) by done. rewrite Ht. by exists t.
    + rewrite (getAccessToken_miss _ E), Ht. by exists t.
Qed.

(** What every call of [getAccessToken] does to the counters: one more
    invocation, at most one more call of the token endpoint, no request of
    the client; and it does not run out of fuel. *)
Lemma getAccessToken_footprint (forceRefresh : bool) (w : World) :
  let w' := snd (getAccessToken env options forceRefresh w) in
  manager_calls w' = S (manager_calls w) ∧
  data_calls w' = data_calls w ∧
  (token_calls w ≤ token_calls w' ≤ S (token_calls w))%nat ∧
  fst (getAccessToken env options forceRefresh w) ≠ OutOfFuel.
Proof.
  destruct forceRefresh.
  - rewrite getAccessToken_force.
    destruct (token_api env (token_calls w)); run; repeat split; (lia || done).
  - destruct (tokens w !! cache_key options false) as [entry|] eqn:E.
    + destruct (Z.lt_ge_cases (clock env (clock_reads w)) (expiresAt entry)).
      * rewrite (getAccessToken_hit _ _ E) by done.
        run; repeat split; (lia || done).
      * rewrite (getAccessToken_expired _ _ E) by done.
        destruct (token_api env (token_calls w)); run; repeat split; (lia || done).
    + rewrite (getAccessToken_miss _ E).
      destruct (token_api env (token_calls w)); run; repeat split; (lia || done).
Qed.

(** [getAccessToken] only ever writes the entry under its own key. *)
Lemma getAccessToken_other_key (forceRefresh : bool) (w : World) (k : string) :
  k ≠ cache_key options false →
  tokens (snd (getAccessToken env options forceRefresh w)) !! k = tokens w !! k.
Proof.
  intros Hk. destruct forceRefresh.
  - rewrite getAccessToken_force.
    destruct (token_api env (token_calls w)); simpl; rewrite ?lookup_insert_ne by done;
      rewrite ?lookup_delete_ne by done; done.
  - destruct (tokens w !! cache_key options false) as [entry|] eqn:E.
    + destruct (Z.lt_ge_cases (clock env (clock_reads w)) (expiresAt entry)).
      * by rewrite (getAccessToken_hit _ _ E).
      * rewrite (getAccessToken_expired _ _ E) by done.
        destruct (token_api env (token_calls w)); simpl; rewrite ?lookup_insert_ne by done;
          rewrite ?lookup_delete_ne by done; done.
    + rewrite (getAccessToken_miss _ E).
      destruct (token_api env (token_calls w)); simpl; rewrite ?lookup_insert_ne by done;
      rewrite ?lookup_delete_ne by done; done.
Qed.

End Manager.

Section ManagerProperties.

Variable env : Remote.
Variable options : WeixinOptions.

Lemma getStableAccessToken_other_key (forceRefresh : bool) (w : World) (k : string) :
  k ≠ cache_key options true →
  tokens (snd (getStableAccessToken env options forceRefresh w)) !! k
    = tokens w !! k.
Proof.
  intros Hk. destruct forceRefresh.
  - rewrite getStableAccessToken_force.
    destruct (stable_api env (stable_calls w)); simpl; rewrite ?lookup_insert_ne by done;
      rewrite ?lookup_delete_ne by done; done.
  - destruct (tokens w !! cache_key options true) as [entry|] eqn:E.
    + unfold getStableAccessToken, store_get, getTokenData, bind, emit,
        read_tokens. simpl. fold (cache_key options true). rewrite E.
      unfold date_now, modify_tokens, ret, bind. simpl.
      destruct (expiresAt entry <=? _); simpl; [|done].
      unfold createStableAccessToken. simpl.
      destruct (stable_api env _); simpl; rewrite ?lookup_insert_ne by done;
      rewrite ?lookup_delete_ne by done; done.
    + rewrite (getStableAccessToken_miss _ _ _ E).
      destruct (stable_api env (stable_calls w)); simpl; rewrite ?lookup_insert_ne by done;
      rewrite ?lookup_delete_ne by done; done.
Qed.

Lemma repeat_getAccessToken_warm (n : nat) (w : World) (entry : Token) :
  tokens w !! cache_key options false = Some entry →
  (∀ i, (i < n)%nat → clock env (clock_reads w + i) < expiresAt entry) →
  fst (repeatM n (getAccessToken env options false) w)
    = Returned (replicate n (access_token (data entry))) ∧
  tokens (snd (repeatM n (getAccessToken env options false) w)) = tokens w ∧
  token_calls (snd (repeatM n (getAccessToken env options false) w))
    = token_calls w.
Proof.
  revert w. induction n as [|n IH]; intros w Hentry Hclock; [done |].
  simpl. unfold bind.
  rewrite (getAccessToken_hit env options w entry Hentry)
    by (rewrite <- (Nat.add_0_r (clock_reads w)); apply Hclock; lia).
  set (w1 := mkWorld _ _).
  destruct (IH w1) as (Hr & Ht & Hc); [done | |].
  { intros i Hi. replace (clock_reads w1 + i)%nat with (clock_reads w + S i)%nat
      by (subst w1; unfold clock_reads; simpl; lia).
    apply Hclock. lia. }
  destruct (repeatM n (getAccessToken env options false) w1) as [[l|e|] w2];
    simpl in *; try done.
  injection Hr as ->. done.
Qed.

Lemma repeat_getStableAccessToken_warm (n : nat) (w : World) (entry : Token) :
  tokens w !! cache_key options true = Some entry →
  (∀ i, (i < n)%nat → clock env (clock_reads w + i) < expiresAt entry) →
  fst (repeatM n (getStableAccessToken env options false) w)
    = Returned (replicate n (access_token (data entry))) ∧
  tokens (snd (repeatM n (getStableAccessToken env options false) w)) = tokens w ∧
  stable_calls (snd (repeatM n (getStableAccessToken env options false) w))
    = stable_calls w.
Proof.
  revert w. induction n as [|n IH]; intros w Hentry Hclock; [done |].
  simpl. unfold bind.
  rewrite (getStableAccessToken_hit env options w entry Hentry)
    by (rewrite <- (Nat.add_0_r (clock_reads w)); apply Hclock; lia).
  set (w1 := mkWorld _ _).
  destruct (IH w1) as (Hr & Ht & Hc); [done | |].
  { intros i Hi. replace (clock_reads w1 + i)%nat with (clock_reads w + S i)%nat
      by (subst w1; unfold clock_reads; simpl; lia).
    apply Hclock. lia. }
  destruct (repeatM n (getStableAccessToken env options false) w1) as [[l|e|] w2];
    simpl in *; try done.
  injection Hr as ->. done.
Qed.

(** C8. With [forceRefresh = false] and an entry under the client's key
    that has not expired at any of the clock readings of the calls, every
    one of [n] calls in a row of [getAccessToken] (and of
    [getStableAccessToken]) returns the cached [access_token], the store is
    left unchanged and the token endpoint is not called; and after a first
    call on an empty store has made its one remote call, [n] further calls
    keep the number of remote calls at 1. *)
Theorem warm_cache_makes_no_remote_call (n : nat) (w : World) (entry : Token)
    (stable : bool) :
  tokens w !! cache_key options stable = Some entry →
  (∀ i, (i < n)%nat → clock env (clock_reads w + i) < expiresAt entry) →
  (if stable then
     fst (repeatM n (getStableAccessToken env options false) w)
       = Returned (replicate n (access_token (data entry))) ∧
     tokens (snd (repeatM n (getStableAccessToken env options false) w))
       = tokens w ∧
     stable_calls (snd (repeatM n (getStableAccessToken env options false) w))
       = stable_calls w
   else
     fst (repeatM n (getAccessToken env options false) w)
       = Returned (replicate n (access_token (data entry))) ∧
     tokens (snd (repeatM n (getAccessToken env options false) w))
       = tokens w ∧
     token_calls (snd (repeatM n (getAccessToken env options false) w))
       = token_calls w) ∧
  (∀ token expires_in,
     token_api env 0 = AccessTokenResponse token expires_in →
     (∀ i, (1 ≤ i ≤ n)%nat →
        clock env i < clock env 0 + (expires_in - 10) * 1000) →
     let w1 := snd (getAccessToken env options false (mkWorld ∅ [])) in
     fst (getAccessToken env options false (mkWorld ∅ [])) = Returned token ∧
     token_calls w1 = 1%nat ∧
     fst (repeatM n (getAccessToken env options false) w1)
       = Returned (replicate n token) ∧
     token_calls (snd (repeatM n (getAccessToken env options false) w1))
       = 1%nat).
Proof.
  intros Hentry Hclock. split.
  - destruct stable.
    + by apply repeat_getStableAccessToken_warm.
    + by apply repeat_getAccessToken_warm.
  - intros token expires_in Hapi Hfresh w1. subst w1.
    rewrite getAccessToken_miss by done.
    change (token_calls (mkWorld ∅ [])) with 0%nat. rewrite Hapi.
    change (clock_reads (mkWorld ∅ [])) with 0%nat.
    set (w1 := mkWorld _ _).
    destruct (repeat_getAccessToken_warm n w1
                (fresh_entry token expires_in (clock env 0)))
      as (Hr & _ & Hc).
    { subst w1. simpl. apply lookup_insert_eq. }
    { intros i Hi. subst w1. unfold clock_reads. simpl. apply Hfresh. lia. }
    simpl. repeat split; first [done | by rewrite Hc].
Qed.

(** C10. With [forceRefresh = true], [getAccessToken] (and
    [getStableAccessToken]) deletes the entry under its key before it calls
    the token endpoint; when that call answers an error payload the method
    throws the classified error and the store is the old one without the
    entry: the previously cached token is gone and is not put back. *)
Theorem force_refresh_deletes_first (w : World) :
  (∃ later : list Event,
     events (snd (getAccessToken env options true w)) =
       (later ++ EvCreateAccessToken (appid options) (secret options)
          :: EvStoreDelete (cache_key options false)
          :: EvGetAccessToken true :: events w)%list) ∧
  (∀ data, token_api env (token_calls w) = TokenErrorResponse data →
     fst (getAccessToken env options true w) =
       Thrown (WeixinThrown (createError "Unable to get an access token." data)) ∧
     tokens (snd (getAccessToken env options true w))
       = delete (cache_key options false) (tokens w) ∧
     tokens (snd (getAccessToken env options true w))
       !! cache_key options false = None) ∧
  (∃ later : list Event,
     events (snd (getStableAccessToken env options true w)) =
       (later ++ EvCreateStableAccessToken (appid options) (secret options) true
          :: EvStoreDelete (cache_key options true)
          :: EvGetStableAccessToken true :: events w)%list) ∧
  (∀ data, stable_api env (stable_calls w) = TokenErrorResponse data →
     fst (getStableAccessToken env options true w) =
       Thrown (WeixinThrown
                 (createError "Unable to get a stable access token." data)) ∧
     tokens (snd (getStableAccessToken env options true w))
       = delete (cache_key options true) (tokens w) ∧
     tokens (snd (getStableAccessToken env options true w))
       !! cache_key options true = None).
Proof.
  rewrite getAccessToken_force, getStableAccessToken_force.
  split; [|split; [|split]].
  - destruct (token_api env (token_calls w)); simpl;
      first [ by exists [EvDateNow; EvStoreSet (cache_key options false)]
            | by exists [] ].
  - intros data Herr. rewrite Herr. simpl.
    split; [done |]. split; [done |]. apply lookup_delete_eq.
  - destruct (stable_api env (stable_calls w)); simpl;
      first [ by exists [EvDateNow; EvStoreSet (cache_key options true)]
            | by exists [] ].
  - intros data Herr. rewrite Herr. simpl.
    split; [done |]. split; [done |]. apply lookup_delete_eq.
Qed.

End ManagerProperties.

(** Three calls on a warm cache. *)
Lemma warm_cache_makes_no_remote_call_witness :
  fst (repeatM 3 (getAccessToken (demo_remote (λ _, response_ok)) demo_options false)
         warm_world)
    = Returned ["cached"; "cached"; "cached"] ∧
  tokens (snd (repeatM 3 (getAccessToken (demo_remote (λ _, response_ok))
                            demo_options false) warm_world))
    = tokens warm_world ∧
  token_calls (snd (repeatM 3 (getAccessToken (demo_remote (λ _, response_ok))
                                 demo_options false) warm_world))
    = token_calls warm_world.
Proof.
  refine (proj1
    (warm_cache_makes_no_remote_call (demo_remote (λ _, response_ok))
       demo_options 3 warm_world (mkEntry (mkToken "cached" None) 1000000)
       false _ _)).
  - vm_compute. reflexivity.
  - intros i Hi. simpl. lia.
Defined.

(** A forced refresh against a failing token endpoint loses the cached
    token. *)
Lemma force_refresh_deletes_first_witness :
  tokens warm_world !! cache_key demo_options false
    = Some (mkEntry (mkToken "cached" None) 1000000) ∧
  fst (getAccessToken failing_remote demo_options true warm_world)
    = Thrown (WeixinThrown
        (createError "Unable to get an access token."
           {[ "errcode" := JNum 40125; "errmsg" := JStr "invalid appsecret" ]})) ∧
  tokens (snd (getAccessToken failing_remote demo_options true warm_world))
    !! cache_key demo_options false = None.
Proof.
  split; [vm_compute; reflexivity |].
  pose proof (proj1 (proj2
    (force_refresh_deletes_first failing_remote demo_options warm_world))
    {[ "errcode" := JNum 40125; "errmsg" := JStr "invalid appsecret" ]}
    eq_refl) as (H1 & _ & H3).
  exact (conj H1 H3).
Defined.

(** ** Cache keys of two clients *)

Section Isolation.

Variable env : Remote.
Variable options : WeixinOptions.

Ltac lookups k key :=
  intros k ?; destruct (decide (k = key)) as [->|];
  rewrite ?lookup_insert_eq, ?lookup_delete_eq;
  rewrite ?lookup_insert_ne by done; rewrite ?lookup_delete_ne by done;
  done.

(** [getAccessToken] reads nothing of the world but the events so far and
    the entry under its own key. *)
Lemma getAccessToken_agree (forceRefresh : bool) (w w' : World) :
  events w = events w' →
  tokens w !! cache_key options false = tokens w' !! cache_key options false →
  fst (getAccessToken env options forceRefresh w)
    = fst (getAccessToken env options forceRefresh w') ∧
  events (snd (getAccessToken env options forceRefresh w))
    = events (snd (getAccessToken env options forceRefresh w')) ∧
  ∀ k, tokens w !! k = tokens w' !! k →
    tokens (snd (getAccessToken env options forceRefresh w)) !! k
      = tokens (snd (getAccessToken env options forceRefresh w')) !! k.
Proof.
  intros Hev Hkey. destruct forceRefresh.
  - rewrite !getAccessToken_force. unfold token_calls, clock_reads.
    rewrite Hev. destruct (token_api env _); simpl;
      (split; [done |]); (split; [done |]);
      lookups k (cache_key options false).
  - destruct (tokens w !! cache_key options false) as [entry|] eqn:E;
      symmetry in Hkey.
    + destruct (Z.lt_ge_cases (clock env (clock_reads w)) (expiresAt entry))
        as [Hlt|Hge].
      * rewrite (getAccessToken_hit env options w entry E Hlt).
        unfold clock_reads in Hlt. rewrite Hev in Hlt.
        rewrite (getAccessToken_hit env options w' entry Hkey Hlt).
        simpl. by rewrite Hev.
      * rewrite (getAccessToken_expired env options w entry E Hge).
        unfold clock_reads in Hge. rewrite Hev in Hge.
        rewrite (getAccessToken_expired env options w' entry Hkey Hge).
        unfold token_calls, clock_reads. rewrite Hev.
        destruct (token_api env _); simpl;
          (split; [done |]); (split; [done |]);
          lookups k (cache_key options false).
    + rewrite (getAccessToken_miss env options w E),
        (getAccessToken_miss env options w' Hkey).
      unfold token_calls, clock_reads. rewrite Hev.
      destruct (token_api env _); simpl;
        (split; [done |]); (split; [done |]);
        lookups k (cache_key options false).
Qed.

Lemma getStableAccessToken_hit_or_expired (w : World) (entry : Token) :
  tokens w !! cache_key options true = Some entry →
  getStableAccessToken env options false w =
    if expiresAt entry <=? clock env (clock_reads w) then
      match stable_api env (stable_calls w) with
      | AccessTokenResponse token expires_in =>
          (Returned token,
           mkWorld (<[cache_key options true :=
                        fresh_entry token expires_in (clock env (S (clock_reads w)))]>
                      (delete (cache_key options true) (tokens w)))
             (EvDateNow :: EvStoreSet (cache_key options true)
                :: EvCreateStableAccessToken (appid options) (secret options) false
                :: EvDateNow :: EvStoreGet (cache_key options true)
                :: EvGetStableAccessToken false :: events w))
      | answer =>
          (Thrown (token_failure "Unable to get a stable access token." answer),
           mkWorld (delete (cache_key options true) (tokens w))
             (EvCreateStableAccessToken (appid options) (secret options) false
                :: EvDateNow :: EvStoreGet (cache_key options true)
                :: EvGetStableAccessToken false :: events w))
      end
    else
      (Returned (access_token (data entry)),
       mkWorld (tokens w)
         (EvDateNow :: EvStoreGet (cache_key options true)
            :: EvGetStableAccessToken false :: events w)).
Proof.
  intros H. run. rewrite H. simpl.
  destruct (expiresAt entry <=? _); simpl; [|done].
  by destruct (stable_api env (count is_stable_call (events w))).
Qed.

Lemma getStableAccessToken_agree (forceRefresh : bool) (w w' : World) :
  events w = events w' →
  tokens w !! cache_key options true = tokens w' !! cache_key options true →
  fst (getStableAccessToken env options forceRefresh w)
    = fst (getStableAccessToken env options forceRefresh w') ∧
  events (snd (getStableAccessToken env options forceRefresh w))
    = events (snd (getStableAccessToken env options forceRefresh w')) ∧
  ∀ k, tokens w !! k = tokens w' !! k →
    tokens (snd (getStableAccessToken env options forceRefresh w)) !! k
      = tokens (snd (getStableAccessToken env options forceRefresh w')) !! k.
Proof.
  intros Hev Hkey. destruct forceRefresh.
  - rewrite !getStableAccessToken_force. unfold stable_calls, clock_reads.
    rewrite Hev. destruct (stable_api env _); simpl;
      (split; [done |]); (split; [done |]);
      lookups k (cache_key options true).
  - destruct (tokens w !! cache_key options true) as [entry|] eqn:E;
      symmetry in Hkey.
    + rewrite (getStableAccessToken_hit_or_expired w entry E),
        (getStableAccessToken_hit_or_expired w' entry Hkey).
      unfold stable_calls, clock_reads. rewrite Hev.
      destruct (expiresAt entry <=? _);
        [destruct (stable_api env _) |]; simpl;
        (split; [done |]); (split; [done |]);
        lookups k (cache_key options true).
    + rewrite (getStableAccessToken_miss env options w E),
        (getStableAccessToken_miss env options w' Hkey).
      unfold stable_calls, clock_reads. rewrite Hev.
      destruct (stable_api env _); simpl;
        (split; [done |]); (split; [done |]);
        lookups k (cache_key options true).
Qed.

Ltac other_ops Hk :=
  unfold store_ops; simpl; rewrite ?(bool_decide_eq_false_2 _ Hk); done.

(** The operations of the store that [getAccessToken] makes are on its
    own key. *)
Lemma getAccessToken_store_ops (forceRefresh : bool) (w : World) (k : string) :
  cache_key options false ≠ k →
  store_ops k (snd (getAccessToken env options forceRefresh w)) = store_ops k w.
Proof.
  intros Hk. destruct forceRefresh.
  - rewrite getAccessToken_force.
    destruct (token_api env (token_calls w)); other_ops Hk.
  - destruct (tokens w !! cache_key options false) as [entry|] eqn:E.
    + destruct (Z.lt_ge_cases (clock env (clock_reads w)) (expiresAt entry)).
      * rewrite (getAccessToken_hit env options w entry E) by done.
        other_ops Hk.
      * rewrite (getAccessToken_expired env options w entry E) by done.
        destruct (token_api env (token_calls w)); other_ops Hk.
    + rewrite (getAccessToken_miss env options w E).
      destruct (token_api env (token_calls w)); other_ops Hk.
Qed.

Lemma getStableAccessToken_store_ops (forceRefresh : bool) (w : World)
    (k : string) :
  cache_key options true ≠ k →
  store_ops k (snd (getStableAccessToken env options forceRefresh w))
    = store_ops k w.
Proof.
  intros Hk. destruct forceRefresh.
  - rewrite getStableAccessToken_force.
    destruct (stable_api env (stable_calls w)); other_ops Hk.
  - destruct (tokens w !! cache_key options true) as [entry|] eqn:E.
    + rewrite (getStableAccessToken_hit_or_expired w entry E).
      destruct (expiresAt entry <=? _);
        [destruct (stable_api env (stable_calls w)) |]; other_ops Hk.
    + rewrite (getStableAccessToken_miss env options w E).
      destruct (stable_api env (stable_calls w)); other_ops Hk.
Qed.

(** A client whose keys differ from those of [other] is isolated from
    it. *)
Lemma isolated_of_keys (other : WeixinOptions) :
  (∀ st st', cache_key other st ≠ cache_key options st') →
  ∀ forceRefresh,
    independent_of other (getAccessToken env options forceRefresh) ∧
    independent_of other (getStableAccessToken env options forceRefresh) ∧
    keeps_off other (getAccessToken env options forceRefresh) ∧
    keeps_off other (getStableAccessToken env options forceRefresh).
Proof.
  intros Hkeys forceRefresh.
  assert (Hown : ∀ st' st, cache_key options st' ≠ cache_key other st)
    by (intros st' st H; by apply (Hkeys st st')).
  split; [|split; [|split]].
  - intros w w' [Hev Hrest].
    destruct (getAccessToken_agree forceRefresh w w' Hev (Hrest _ (Hown false)))
      as (Hfst & Hevs & Hlook).
    split; [done |]. split; [done |]. intros k Hk. by apply Hlook, Hrest.
  - intros w w' [Hev Hrest].
    destruct (getStableAccessToken_agree forceRefresh w w' Hev
                (Hrest _ (Hown true))) as (Hfst & Hevs & Hlook).
    split; [done |]. split; [done |]. intros k Hk. by apply Hlook, Hrest.
  - intros w st. split.
    + by apply getAccessToken_store_ops.
    + apply getAccessToken_other_key. intros H. by apply (Hkeys st false).
  - intros w st. split.
    + by apply getStableAccessToken_store_ops.
    + apply getStableAccessToken_other_key. intros H. by apply (Hkeys st true).
Qed.

End Isolation.

(** C3, as the code has it. Two clients with the same [appid] whose
    secrets differ within their first six characters compute different
    cache keys, for either kind of token, so they never read or return
    each other's cached token: what a call of [getAccessToken] or
    [getStableAccessToken] by the one returns or throws does not depend on
    the entries under the keys of the other, and the call makes no
    operation of the store on these keys and leaves their entries as they
    are. *)
Theorem distinct_prefix_distinct_key (o1 o2 : WeixinOptions) :
  appid o1 = appid o2 →
  Str.slice_to 6 (secret o1) ≠ Str.slice_to 6 (secret o2) →
  (∀ st1 st2, cache_key o1 st1 ≠ cache_key o2 st2) ∧
  isolated_from o1 o2 ∧
  isolated_from o2 o1.
Proof.
  intros Happ Hsec.
  assert (Hkeys : ∀ st1 st2, cache_key o1 st1 ≠ cache_key o2 st2).
  { intros st1 st2 Heq. unfold cache_key in Heq. rewrite Happ in Heq.
    apply compositeKey_inj in Heq as [Heq _].
    rewrite !StrFacts.slice_to_idem in Heq. done. }
  split; [done |]. split.
  - intros env forceRefresh. by apply isolated_of_keys.
  - intros env forceRefresh. apply isolated_of_keys.
    intros st st' H. by apply (Hkeys st' st).
Qed.

(** A client is handed a fresh token of its own, whether or not the store
    holds the token of a client with another secret, and it leaves that
    token alone. *)
Lemma distinct_prefix_distinct_key_witness :
  let o1 := mkOptions "wx1234" "abcdef0123" in
  let o2 := mkOptions "wx1234" "abcdeX0123" in
  let remote := demo_remote (λ _, response_ok) in
  let held := mkEntry (mkToken "token of the first client" None) 1000000 in
  let w1 := mkWorld {[ cache_key o1 false := held ]} [] in
  cache_key o1 false ≠ cache_key o2 false ∧
  fst (getAccessToken remote o2 false w1)
    = fst (getAccessToken remote o2 false empty_world) ∧
  fst (getAccessToken remote o2 false w1) = Returned "token-1" ∧
  tokens (snd (getAccessToken remote o2 false w1)) !! cache_key o1 false
    = Some held ∧
  store_ops (cache_key o1 false) (snd (getAccessToken remote o2 false w1)) = 0%nat.
Proof.
  intros o1 o2 remote held w1.
  destruct (distinct_prefix_distinct_key o1 o2) as (Hkeys & Hiso & _).
  - reflexivity.
  - vm_compute. discriminate.
  - destruct (Hiso remote false) as (Hind & _ & Hoff & _).
    destruct (Hoff w1 false) as [Hops Hentry].
    destruct (Hind w1 empty_world) as [Hsame _].
    { split; [reflexivity |]. intros k Hk. simpl.
      rewrite lookup_singleton_ne by (intros H; by apply (Hk false)).
      by rewrite lookup_empty. }
    split; [apply Hkeys |]. split; [exact Hsame |].
    split; [rewrite Hsame; vm_compute; reflexivity |].
    split; [rewrite Hentry; apply lookup_singleton_eq | exact Hops].
Defined.

(** The claim C3 fails: two secrets that differ after their sixth
    character give the same key, and the second client is handed the token
    that the first one cached. *)
Lemma same_prefix_shares_token :
  let o1 := mkOptions "wx1234" "abcdef-first" in
  let o2 := mkOptions "wx1234" "abcdef-second" in
  let remote := demo_remote (λ _, response_ok) in
  let w1 := snd (getAccessToken remote o1 false empty_world) in
  appid o1 = appid o2 ∧ secret o1 ≠ secret o2 ∧
  cache_key o1 false = cache_key o2 false ∧
  fst (getAccessToken remote o1 false empty_world) = Returned "token-1" ∧
  fst (getAccessToken remote o2 false w1) = Returned "token-1" ∧
  token_calls (snd (getAccessToken remote o2 false w1)) = 1%nat.
Proof. vm_compute. repeat split. discriminate. Qed.

(** ** The request client *)

Section ClientProperties.

Variable env : Remote.
Variable options : WeixinOptions.

Lemma request_ok (method : Method) (path : string)
    (accessToken : option string) (params : JsObject) (w : World) :
  Str.first_is_slash path = true →
  request env method path accessToken params w =
    (Returned (data_api env (data_calls w)),
     mkWorld (tokens w)
       (EvFetch (sent_call method path accessToken params) :: events w)).
Proof.
  intros H. unfold request. rewrite H. by destruct method.
Qed.

Lemma request_bad (method : Method) (path : string)
    (accessToken : option string) (params : JsObject) (w : World) :
  Str.first_is_slash path = false →
  request env method path accessToken params w =
    (Thrown (PlainError "Path must start with '/'"), w).
Proof. intros H. unfold request. by rewrite H. Qed.

Lemma client_request_unfold (fuel : nat) (method : Method) (path : string)
    (params : JsObject) (isRetry : bool) (w : World) :
  client_request env options (S fuel) method path params isRetry w =
    match getAccessToken env options false w with
    | (Returned accessToken, w1) =>
        request_after_token env options fuel method path params isRetry accessToken w1
    | (Thrown e, w1) => (Thrown e, w1)
    | (OutOfFuel, w1) => (OutOfFuel, w1)
    end.
Proof.
  simpl. unfold bind at 1.
  destruct (getAccessToken env options false w) as [[tok|e|] w1]; try done.
  unfold request_after_token, bind at 1.
  destruct (request env method path (Some tok) params w1) as [[res|e|] w2];
    try done.
  unfold bind at 1, json.
  destruct (json_body res) as [data|]; [|done]. unfold ret at 1.
  destruct (errcode_nonzero data); [|done].
  destruct (negb isRetry && strict_eq_num (data !! "errcode") 40001); [|done].
  unfold bind.
  by destruct (getAccessToken env options true w2) as [[?|?|] ?].
Qed.

Lemma client_raw_unfold (fuel : nat) (method : Method) (path : string)
    (params : JsObject) (isRetry : bool) (w : World) :
  client_raw env options (S fuel) method path params isRetry w =
    match getAccessToken env options false w with
    | (Returned accessToken, w1) =>
        raw_after_token env options fuel method path params isRetry accessToken w1
    | (Thrown e, w1) => (Thrown e, w1)
    | (OutOfFuel, w1) => (OutOfFuel, w1)
    end.
Proof.
  simpl. unfold bind at 1.
  destruct (getAccessToken env options false w) as [[tok|e|] w1]; try done.
  unfold raw_after_token, bind at 1.
  destruct (request env method path (Some tok) params w1) as [[res|e|] w2];
    try done.
  destruct (is_json_content res); [|done].
  unfold bind at 1, json.
  destruct (json_body res) as [data|]; [|done]. unfold ret at 1.
  destruct (negb isRetry && strict_eq_num (data !! "errcode") 40001); [|done].
  unfold bind.
  by destruct (getAccessToken env options true w2) as [[?|?|] ?].
Qed.

End ClientProperties.

Section ClientBounds.

Variable env : Remote.
Variable options : WeixinOptions.

Ltac finish :=
  counters; intuition (first [done | lia]).

Ltac with_token w w1 H :=
  pose proof (getAccessToken_footprint env options false w) as H;
  destruct (getAccessToken env options false w) as [[?tok|?e|] w1];
  simpl in H.

Ltac through_request path :=
  destruct (Str.first_is_slash path) eqn:?Hpath;
  [rewrite request_ok by done | rewrite request_bad by done].

(** The level entered with [isRetry = true] makes no further call of
    itself: one invocation of [getAccessToken], at most one request. *)
Lemma client_request_retry_level (fuel : nat) (method : Method)
    (path : string) (params : JsObject) (w : World) :
  let r := client_request env options (S fuel) method path params true w in
  r = client_request env options 1 method path params true w ∧
  fst r ≠ OutOfFuel ∧
  manager_calls (snd r) = S (manager_calls w) ∧
  (data_calls (snd r) ≤ S (data_calls w))%nat ∧
  (token_calls (snd r) ≤ S (token_calls w))%nat.
Proof.
  intros r. subst r. rewrite !client_request_unfold.
  with_token w w1 Hw1; [|finish|finish].
  unfold request_after_token. through_request path;
    [|finish].
  destruct (json_body _) as [data|]; [|finish].
  destruct (errcode_nonzero data); finish.
Qed.

Lemma client_raw_retry_level (fuel : nat) (method : Method)
    (path : string) (params : JsObject) (w : World) :
  let r := client_raw env options (S fuel) method path params true w in
  r = client_raw env options 1 method path params true w ∧
  fst r ≠ OutOfFuel ∧
  manager_calls (snd r) = S (manager_calls w) ∧
  (data_calls (snd r) ≤ S (data_calls w))%nat ∧
  (token_calls (snd r) ≤ S (token_calls w))%nat.
Proof.
  intros r. subst r. rewrite !client_raw_unfold.
  with_token w w1 Hw1; [|finish|finish].
  unfold raw_after_token. through_request path;
    [|finish].
  destruct (is_json_content _); [|finish].
  destruct (json_body _) as [data|]; finish.
Qed.

(** A whole logical request: at most three invocations of
    [getAccessToken], two requests and three calls of the token endpoint;
    two levels of fuel are all it uses. *)
Lemma client_request_footprint (fuel : nat) (method : Method)
    (path : string) (params : JsObject) (w : World) :
  let r := client_request env options (S (S fuel)) method path params false w in
  r = client_request env options 2 method path params false w ∧
  fst r ≠ OutOfFuel ∧
  (manager_calls (snd r) ≤ manager_calls w + 3)%nat ∧
  (data_calls (snd r) ≤ data_calls w + 2)%nat ∧
  (token_calls (snd r) ≤ token_calls w + 3)%nat.
Proof.
  intros r. subst r.
  rewrite (client_request_unfold _ _ (S fuel)), (client_request_unfold _ _ 1).
  with_token w w1 Hw1; [|finish|finish].
  unfold request_after_token. through_request path;
    [|finish].
  destruct (json_body _) as [data|]; [|finish].
  destruct (errcode_nonzero data); [|finish].
  destruct (strict_eq_num (data !! "errcode") 40001); simpl;
    [|finish].
  set (w2 := mkWorld _ _).
  assert (Hw2 : manager_calls w2 = manager_calls w1 ∧
                data_calls w2 = S (data_calls w1) ∧
                token_calls w2 = token_calls w1) by (subst w2; by counters).
  pose proof (getAccessToken_footprint env options true w2) as Hw3.
  destruct (getAccessToken env options true w2) as [[?|?|] w3]; simpl in Hw3;
    [|finish|finish].
  pose proof (client_request_retry_level fuel method path params w3) as Hr.
  pose proof (client_request_retry_level 0 method path params w3) as Hr0.
  simpl in Hr, Hr0. destruct Hr as (Heq & Hfuel & Hm & Hd & Ht).
  finish.
Qed.

Lemma client_raw_footprint (fuel : nat) (method : Method)
    (path : string) (params : JsObject) (w : World) :
  let r := client_raw env options (S (S fuel)) method path params false w in
  r = client_raw env options 2 method path params false w ∧
  fst r ≠ OutOfFuel ∧
  (manager_calls (snd r) ≤ manager_calls w + 3)%nat ∧
  (data_calls (snd r) ≤ data_calls w + 2)%nat ∧
  (token_calls (snd r) ≤ token_calls w + 3)%nat.
Proof.
  intros r. subst r.
  rewrite (client_raw_unfold _ _ (S fuel)), (client_raw_unfold _ _ 1).
  with_token w w1 Hw1; [|finish|finish].
  unfold raw_after_token. through_request path;
    [|finish].
  destruct (is_json_content _); [|finish].
  destruct (json_body _) as [data|]; [|finish].
  destruct (strict_eq_num (data !! "errcode") 40001); simpl;
    [|finish].
  set (w2 := mkWorld _ _).
  assert (Hw2 : manager_calls w2 = manager_calls w1 ∧
                data_calls w2 = S (data_calls w1) ∧
                token_calls w2 = token_calls w1) by (subst w2; by counters).
  pose proof (getAccessToken_footprint env options true w2) as Hw3.
  destruct (getAccessToken env options true w2) as [[?|?|] w3]; simpl in Hw3;
    [|finish|finish].
  pose proof (client_raw_retry_level fuel method path params w3) as Hr.
  pose proof (client_raw_retry_level 0 method path params w3) as Hr0.
  simpl in Hr, Hr0. destruct Hr as (Heq & Hfuel & Hm & Hd & Ht).
  finish.
Qed.

(** C2, as the code has it. A logical request through [get], [post],
    [getRaw] or [postRaw] invokes [getAccessToken] at most three times
    (the first attempt, the forced refresh and the retry) and makes at most
    two network calls to the data endpoint. *)
Theorem request_effects_bounded (path : string) (params : JsObject) (w : World) :
  (manager_calls (snd (get env options path params w)) ≤ manager_calls w + 3 ∧
   data_calls (snd (get env options path params w)) ≤ data_calls w + 2)%nat ∧
  (manager_calls (snd (post env options path params w)) ≤ manager_calls w + 3 ∧
   data_calls (snd (post env options path params w)) ≤ data_calls w + 2)%nat ∧
  (manager_calls (snd (getRaw env options path params w)) ≤ manager_calls w + 3 ∧
   data_calls (snd (getRaw env options path params w)) ≤ data_calls w + 2)%nat ∧
  (manager_calls (snd (postRaw env options path params w)) ≤ manager_calls w + 3 ∧
   data_calls (snd (postRaw env options path params w)) ≤ data_calls w + 2)%nat.
Proof.
  unfold get, post, getRaw, postRaw.
  pose proof (client_request_footprint 0 GET path params w) as (_ & _ & ? & ? & _).
  pose proof (client_request_footprint 0 POST path params w) as (_ & _ & ? & ? & _).
  pose proof (client_raw_footprint 0 GET path params w) as (_ & _ & ? & ? & _).
  pose proof (client_raw_footprint 0 POST path params w) as (_ & _ & ? & ? & _).
  done.
Qed.

End ClientBounds.

(** The claim C2 fails: a retried request invokes [getAccessToken] three
    times. *)
Lemma retried_request_calls_manager_thrice :
  let remote := demo_remote (λ n, match n with O => response_40001 | _ => response_ok end) in
  manager_calls (snd (get remote demo_options "/cgi-bin/quota" ∅ empty_world)) = 3%nat ∧
  manager_calls (snd (postRaw remote demo_options "/cgi-bin/quota" ∅ empty_world)) = 3%nat ∧
  ¬ (manager_calls (snd (get remote demo_options "/cgi-bin/quota" ∅ empty_world))
       ≤ manager_calls empty_world + 2)%nat.
Proof. vm_compute. repeat split. lia. Qed.

Section ClientRuns.

Variable env : Remote.
Variable options : WeixinOptions.

#[local] Arguments client_request : simpl never.
#[local] Arguments client_raw : simpl never.

Lemma carries_40001_flags (res : Response) :
  carries_40001 res →
  ∃ data, json_body res = Some data ∧
    errcode_nonzero data = true ∧
    strict_eq_num (data !! "errcode") 40001 = true.
Proof.
  intros (data & Hb & He). exists data. unfold errcode_nonzero.
  by rewrite He.
Qed.

(** The world after a first attempt that is not retried: the one that
    [getAccessToken()] leaves, with one network call more. *)
Lemma first_attempt_json (method : Method) (path : string)
    (params data : JsObject) (w : World) (accessToken : string) :
  Str.first_is_slash path = true →
  fst (getAccessToken env options false w) = Returned accessToken →
  json_body (data_api env (data_calls w)) = Some data →
  data !! "errcode" ≠ Some (JNum 40001) →
  client_request env options 2 method path params false w =
    (if errcode_nonzero data
     then Thrown (WeixinThrown (createError (failed_message path) data))
     else Returned data,
     mkWorld (tokens (snd (getAccessToken env options false w)))
       (EvFetch (sent_call method path (Some accessToken) params)
          :: events (snd (getAccessToken env options false w)))).
Proof.
  intros Hp Htok Hbody Hcode. rewrite (client_request_unfold _ _ 1).
  pose proof (getAccessToken_footprint env options false w) as (_ & Fd & _).
  destruct (getAccessToken env options false w) as [[tok|e|] w1];
    simpl in Htok, Fd |- *; try done.
  injection Htok as ->.
  unfold request_after_token. rewrite request_ok by done. rewrite Fd, Hbody.
  assert (strict_eq_num (data !! "errcode") 40001 = false) as ->.
  { unfold strict_eq_num. destruct (data !! "errcode") as [[z| |]|]; try done.
    destruct (Z.eqb_spec z 40001) as [->|]; done. }
  by destruct (errcode_nonzero data).
Qed.

Lemma first_attempt_raw (method : Method) (path : string)
    (params : JsObject) (w : World) (accessToken : string) :
  Str.first_is_slash path = true →
  fst (getAccessToken env options false w) = Returned accessToken →
  (is_json_content (data_api env (data_calls w)) = false →
   client_raw env options 2 method path params false w =
     (Returned (data_api env (data_calls w)),
      mkWorld (tokens (snd (getAccessToken env options false w)))
        (EvFetch (sent_call method path (Some accessToken) params)
           :: events (snd (getAccessToken env options false w))))) ∧
  (is_json_content (data_api env (data_calls w)) = true →
   ∀ data, json_body (data_api env (data_calls w)) = Some data →
     data !! "errcode" ≠ Some (JNum 40001) →
     client_raw env options 2 method path params false w =
       (Thrown (WeixinThrown (createError (failed_message path) data)),
        mkWorld (tokens (snd (getAccessToken env options false w)))
          (EvFetch (sent_call method path (Some accessToken) params)
             :: events (snd (getAccessToken env options false w))))).
Proof.
  intros Hp Htok. rewrite (client_raw_unfold _ _ 1).
  pose proof (getAccessToken_footprint env options false w) as (_ & Fd & _).
  destruct (getAccessToken env options false w) as [[tok|e|] w1];
    simpl in Htok, Fd |- *; try done.
  injection Htok as ->.
  unfold raw_after_token. rewrite request_ok by done. rewrite Fd.
  split.
  - by intros ->.
  - intros -> data -> Hcode.
    assert (strict_eq_num (data !! "errcode") 40001 = false) as ->; [|done].
    unfold strict_eq_num. destruct (data !! "errcode") as [[z| |]|]; try done.
    destruct (Z.eqb_spec z 40001) as [->|]; done.
Qed.

Lemma client_request_refresh_failure (method : Method) (path : string)
    (params payload : JsObject) (w : World) (accessToken : string) :
  Str.first_is_slash path = true →
  fst (getAccessToken env options false w) = Returned accessToken →
  carries_40001 (data_api env (data_calls w)) →
  token_api env (token_calls (snd (getAccessToken env options false w)))
    = TokenErrorResponse payload →
  ends_with_token_error options payload
    (client_request env options 2 method path params false) w.
Proof.
  intros Hp Htok (d1 & Hb1 & Hn1 & He1)%carries_40001_flags Hapi.
  unfold ends_with_token_error. rewrite (client_request_unfold _ _ 1).
  pose proof (getAccessToken_footprint env options false w) as (_ & Fd & _).
  destruct (getAccessToken env options false w) as [[tok|e|] w1];
    simpl in Htok, Fd, Hapi |- *; try done.
  unfold request_after_token. rewrite request_ok by done.
  rewrite Fd, Hb1, Hn1, He1. cbn [negb andb].
  rewrite getAccessToken_force. counters. rewrite Hapi. simpl.
  split; [done |]. split; [by rewrite Fd |]. apply lookup_delete_eq.
Qed.

Lemma client_raw_refresh_failure (method : Method) (path : string)
    (params payload : JsObject) (w : World) (accessToken : string) :
  Str.first_is_slash path = true →
  fst (getAccessToken env options false w) = Returned accessToken →
  carries_40001 (data_api env (data_calls w)) →
  is_json_content (data_api env (data_calls w)) = true →
  token_api env (token_calls (snd (getAccessToken env options false w)))
    = TokenErrorResponse payload →
  ends_with_token_error options payload
    (client_raw env options 2 method path params false) w.
Proof.
  intros Hp Htok (d1 & Hb1 & Hn1 & He1)%carries_40001_flags Hj Hapi.
  unfold ends_with_token_error. rewrite (client_raw_unfold _ _ 1).
  pose proof (getAccessToken_footprint env options false w) as (_ & Fd & _).
  destruct (getAccessToken env options false w) as [[tok|e|] w1];
    simpl in Htok, Fd, Hapi |- *; try done.
  unfold raw_after_token. rewrite request_ok by done.
  rewrite Fd, Hj, Hb1, He1. cbn [negb andb].
  rewrite getAccessToken_force. counters. rewrite Hapi. simpl.
  split; [done |]. split; [by rewrite Fd |]. apply lookup_delete_eq.
Qed.

(** Under a well-formed path and a token endpoint that answers with
    tokens, a first response 40001 leads to the level of the retry, one
    network call later. *)
Lemma client_request_enters_retry (method : Method) (path : string)
    (params : JsObject) (w : World) :
  Str.first_is_slash path = true →
  (∀ n, ∃ token expires_in,
     token_api env n = AccessTokenResponse token expires_in) →
  carries_40001 (data_api env (data_calls w)) →
  ∃ w3,
    client_request env options 2 method path params false w
      = client_request env options 1 method path params true w3 ∧
    data_calls w3 = S (data_calls w).
Proof.
  intros Hp Hapi (d1 & Hb1 & Hn1 & He1)%carries_40001_flags.
  rewrite (client_request_unfold _ _ 1).
  pose proof (getAccessToken_footprint env options false w) as (_ & Fd1 & _).
  destruct (getAccessToken_succeeds env options false w Hapi) as [tok Htok].
  destruct (getAccessToken env options false w) as [[tok'|e|] w1];
    simpl in Htok, Fd1; try done.
  unfold request_after_token. rewrite request_ok by done.
  rewrite Fd1, Hb1, Hn1, He1. cbn [negb andb].
  set (w2 := mkWorld _ _).
  assert (Fd2 : data_calls w2 = S (data_calls w1)) by (subst w2; by counters).
  pose proof (getAccessToken_footprint env options true w2) as (_ & Fd3 & _).
  destruct (getAccessToken_succeeds env options true w2 Hapi) as [tok2 Htok2].
  destruct (getAccessToken env options true w2) as [[tok2'|e|] w3];
    simpl in Htok2, Fd3; try done.
  exists w3. split; [done | lia].
Qed.

Lemma client_raw_enters_retry (method : Method) (path : string)
    (params : JsObject) (w : World) :
  Str.first_is_slash path = true →
  (∀ n, ∃ token expires_in,
     token_api env n = AccessTokenResponse token expires_in) →
  carries_40001 (data_api env (data_calls w)) →
  is_json_content (data_api env (data_calls w)) = true →
  ∃ w3,
    client_raw env options 2 method path params false w
      = client_raw env options 1 method path params true w3 ∧
    data_calls w3 = S (data_calls w).
Proof.
  intros Hp Hapi (d1 & Hb1 & Hn1 & He1)%carries_40001_flags Hj.
  rewrite (client_raw_unfold _ _ 1).
  pose proof (getAccessToken_footprint env options false w) as (_ & Fd1 & _).
  destruct (getAccessToken_succeeds env options false w Hapi) as [tok Htok].
  destruct (getAccessToken env options false w) as [[tok'|e|] w1];
    simpl in Htok, Fd1; try done.
  unfold raw_after_token. rewrite request_ok by done.
  rewrite Fd1, Hj, Hb1, He1. cbn [negb andb].
  set (w2 := mkWorld _ _).
  assert (Fd2 : data_calls w2 = S (data_calls w1)) by (subst w2; by counters).
  pose proof (getAccessToken_footprint env options true w2) as (_ & Fd3 & _).
  destruct (getAccessToken_succeeds env options true w2 Hapi) as [tok2 Htok2].
  destruct (getAccessToken env options true w2) as [[tok2'|e|] w3];
    simpl in Htok2, Fd3; try done.
  exists w3. split; [done | lia].
Qed.

(** The forced refresh that follows a first response 40001 fails: the
    call ends with the error of the token call, the request is not sent
    again. *)
Lemma client_raw_refresh_fails (method : Method) (path : string)
    (params : JsObject) (w : World) (accessToken : string) (e : JsError) :
  Str.first_is_slash path = true →
  fst (getAccessToken env options false w) = Returned accessToken →
  carries_40001 (data_api env (data_calls w)) →
  is_json_content (data_api env (data_calls w)) = true →
  failed_as "Unable to get an access token."
    (token_api env (token_calls (snd (getAccessToken env options false w)))) e →
  throws_after (client_raw env options 2 method path params false) e 1 w.
Proof.
  intros Hp Htok (d1 & Hb1 & Hn1 & He1)%carries_40001_flags Hj Hfail.
  unfold throws_after. rewrite (client_raw_unfold _ _ 1).
  pose proof (getAccessToken_footprint env options false w) as (_ & Fd & _).
  destruct (getAccessToken env options false w) as [[tok|e'|] w1];
    simpl in Htok, Fd, Hfail |- *; try done.
  unfold raw_after_token. rewrite request_ok by done.
  rewrite Fd, Hj, Hb1, He1. cbn [negb andb].
  rewrite getAccessToken_force. counters.
  destruct Hfail as [(payload & -> & ->) | [[-> ->] | [[-> ->] | [-> ->]]]];
    simpl; (split; [done | lia]).
Qed.

(** After a first response 40001 and a refresh, the second response
    settles the call, whatever it is. *)
Lemma client_request_second_response (method : Method) (path : string)
    (params : JsObject) (w : World) :
  Str.first_is_slash path = true →
  (∀ n, ∃ token expires_in,
     token_api env n = AccessTokenResponse token expires_in) →
  carries_40001 (data_api env (data_calls w)) →
  fst (client_request env options 2 method path params false w) =
    match json_body (data_api env (S (data_calls w))) with
    | Some data2 =>
        if errcode_nonzero data2
        then Thrown (WeixinThrown (createError (failed_message path) data2))
        else Returned data2
    | None => Thrown JsonRejected
    end ∧
  data_calls (snd (client_request env options 2 method path params false w))
    = (data_calls w + 2)%nat.
Proof.
  intros Hp Hapi H1.
  destruct (client_request_enters_retry method path params w Hp Hapi H1)
    as (w3 & -> & Fd3).
  rewrite (client_request_unfold _ _ 0).
  pose proof (getAccessToken_footprint env options false w3) as (_ & Fd4 & _).
  destruct (getAccessToken_succeeds env options false w3 Hapi) as [tok Htok].
  destruct (getAccessToken env options false w3) as [[tok'|e|] w4];
    simpl in Htok, Fd4; try done.
  unfold request_after_token. rewrite request_ok by done.
  rewrite Fd4, Fd3.
  destruct (json_body (data_api env (S (data_calls w)))) as [data2|];
    [destruct (errcode_nonzero data2) |];
    simpl; (split; [done |]); counters; lia.
Qed.

Lemma client_raw_second_response (method : Method) (path : string)
    (params : JsObject) (w : World) :
  Str.first_is_slash path = true →
  (∀ n, ∃ token expires_in,
     token_api env n = AccessTokenResponse token expires_in) →
  carries_40001 (data_api env (data_calls w)) →
  is_json_content (data_api env (data_calls w)) = true →
  fst (client_raw env options 2 method path params false w) =
    (if is_json_content (data_api env (S (data_calls w))) then
       match json_body (data_api env (S (data_calls w))) with
       | Some data2 =>
           Thrown (WeixinThrown (createError (failed_message path) data2))
       | None => Thrown JsonRejected
       end
     else Returned (data_api env (S (data_calls w)))) ∧
  data_calls (snd (client_raw env options 2 method path params false w))
    = (data_calls w + 2)%nat.
Proof.
  intros Hp Hapi H1 Hj1.
  destruct (client_raw_enters_retry method path params w Hp Hapi H1 Hj1)
    as (w3 & -> & Fd3).
  rewrite (client_raw_unfold _ _ 0).
  pose proof (getAccessToken_footprint env options false w3) as (_ & Fd4 & _).
  destruct (getAccessToken_succeeds env options false w3 Hapi) as [tok Htok].
  destruct (getAccessToken env options false w3) as [[tok'|e|] w4];
    simpl in Htok, Fd4; try done.
  unfold raw_after_token. rewrite request_ok by done.
  rewrite Fd4, Fd3.
  destruct (is_json_content (data_api env (S (data_calls w))));
    [destruct (json_body (data_api env (S (data_calls w)))) as [data2|] |];
    simpl; (split; [done |]); counters; lia.
Qed.

(** A first response that [#raw] does not take for JSON is returned; one
    that it takes for JSON and that is not the stale-token error is
    thrown. *)
Lemma client_raw_returns_at_once (method : Method) (path : string)
    (params : JsObject) (w : World) (accessToken : string) :
  Str.first_is_slash path = true →
  fst (getAccessToken env options false w) = Returned accessToken →
  is_json_content (data_api env (data_calls w)) = false →
  returns_after (client_raw env options 2 method path params false)
    (data_api env (data_calls w)) 1 w.
Proof.
  intros Hp Htok Hj.
  pose proof (getAccessToken_footprint env options false w) as (_ & Fd & _).
  unfold returns_after.
  rewrite (proj1 (first_attempt_raw method path params w accessToken Hp Htok) Hj).
  simpl. split; [done |]. counters. lia.
Qed.

Lemma client_raw_throws_at_once (method : Method) (path : string)
    (params data : JsObject) (w : World) (accessToken : string) :
  Str.first_is_slash path = true →
  fst (getAccessToken env options false w) = Returned accessToken →
  is_json_content (data_api env (data_calls w)) = true →
  json_body (data_api env (data_calls w)) = Some data →
  data !! "errcode" ≠ Some (JNum 40001) →
  throws_after (client_raw env options 2 method path params false)
    (WeixinThrown (createError (failed_message path) data)) 1 w.
Proof.
  intros Hp Htok Hj Hbody Hcode.
  pose proof (getAccessToken_footprint env options false w) as (_ & Fd & _).
  unfold throws_after.
  rewrite (proj2 (first_attempt_raw method path params w accessToken Hp Htok)
             Hj data Hbody Hcode).
  simpl. split; [done |]. counters. lia.
Qed.

End ClientRuns.

Section ClientOutcomes.

Variable env : Remote.
Variable options : WeixinOptions.


Lemma client_request_double_40001 (method : Method) (path : string)
    (params : JsObject) (w : World) :
  carries_40001 (data_api env (data_calls w)) →
  carries_40001 (data_api env (S (data_calls w))) →
  fails_after_one_retry env
    (client_request env options 2 method path params false) path w.
Proof.
  intros (d1 & Hb1 & Hn1 & He1)%carries_40001_flags
         (d2 & Hb2 & Hn2 & He2)%carries_40001_flags.
  unfold fails_after_one_retry. rewrite (client_request_unfold _ _ 1).
  pose proof (getAccessToken_footprint env options false w) as F1.
  pose proof (getAccessToken_succeeds env options false w) as S1.
  destruct (getAccessToken env options false w) as [[tok|e|] w1];
    simpl in F1, S1; destruct F1 as (Fm1 & Fd1 & _ & Fo1); [| |done].
  2: { split; [by eexists|]. split; [simpl; lia|].
       intros _ Hapi. by destruct (S1 Hapi). }
  unfold request_after_token.
  destruct (Str.first_is_slash path) eqn:Hp;
    [rewrite request_ok by done | rewrite request_bad by done].
  2: { split; [by eexists|]. split; [simpl; lia|].
       intros Hs%starts_with_slash_iff. congruence. }
  rewrite Fd1, Hb1, Hn1, He1. cbn [negb andb].
  set (w2 := mkWorld _ _).
  assert (Hw2 : manager_calls w2 = manager_calls w1 ∧
                data_calls w2 = S (data_calls w1)) by (subst w2; by counters).
  destruct Hw2 as (Fm2 & Fd2).
  pose proof (getAccessToken_footprint env options true w2) as F3.
  pose proof (getAccessToken_succeeds env options true w2) as S3.
  destruct (getAccessToken env options true w2) as [[tok'|e|] w3];
    simpl in F3, S3; destruct F3 as (Fm3 & Fd3 & _ & Fo3); [| |done].
  2: { split; [by eexists|]. split; [simpl; lia|].
       intros _ Hapi. by destruct (S3 Hapi). }
  rewrite (client_request_unfold _ _ 0).
  pose proof (getAccessToken_footprint env options false w3) as F4.
  pose proof (getAccessToken_succeeds env options false w3) as S4.
  destruct (getAccessToken env options false w3) as [[tok''|e|] w4];
    simpl in F4, S4; destruct F4 as (Fm4 & Fd4 & _ & Fo4); [| |done].
  2: { split; [by eexists|]. split; [simpl; lia|].
       intros _ Hapi. by destruct (S4 Hapi). }
  unfold request_after_token. rewrite request_ok by done.
  replace (data_calls w4) with (S (data_calls w)) by lia.
  rewrite Hb2, Hn2. simpl.
  split; [by eexists|]. split; [counters; lia|].
  intros _ _ data2 [= <-]. split; [done|]. counters. lia.
Qed.

Lemma client_raw_double_40001 (method : Method) (path : string)
    (params : JsObject) (w : World) :
  carries_40001 (data_api env (data_calls w)) →
  carries_40001 (data_api env (S (data_calls w))) →
  is_json_content (data_api env (data_calls w)) = true →
  is_json_content (data_api env (S (data_calls w))) = true →
  fails_after_one_retry env
    (client_raw env options 2 method path params false) path w.
Proof.
  intros (d1 & Hb1 & Hn1 & He1)%carries_40001_flags
         (d2 & Hb2 & Hn2 & He2)%carries_40001_flags Hj1 Hj2.
  unfold fails_after_one_retry. rewrite (client_raw_unfold _ _ 1).
  pose proof (getAccessToken_footprint env options false w) as F1.
  pose proof (getAccessToken_succeeds env options false w) as S1.
  destruct (getAccessToken env options false w) as [[tok|e|] w1];
    simpl in F1, S1; destruct F1 as (Fm1 & Fd1 & _ & Fo1); [| |done].
  2: { split; [by eexists|]. split; [simpl; lia|].
       intros _ Hapi. by destruct (S1 Hapi). }
  unfold raw_after_token.
  destruct (Str.first_is_slash path) eqn:Hp;
    [rewrite request_ok by done | rewrite request_bad by done].
  2: { split; [by eexists|]. split; [simpl; lia|].
       intros Hs%starts_with_slash_iff. congruence. }
  rewrite Fd1, Hj1, Hb1, He1. cbn [negb andb].
  set (w2 := mkWorld _ _).
  assert (Hw2 : manager_calls w2 = manager_calls w1 ∧
                data_calls w2 = S (data_calls w1)) by (subst w2; by counters).
  destruct Hw2 as (Fm2 & Fd2).
  pose proof (getAccessToken_footprint env options true w2) as F3.
  pose proof (getAccessToken_succeeds env options true w2) as S3.
  destruct (getAccessToken env options true w2) as [[tok'|e|] w3];
    simpl in F3, S3; destruct F3 as (Fm3 & Fd3 & _ & Fo3); [| |done].
  2: { split; [by eexists|]. split; [simpl; lia|].
       intros _ Hapi. by destruct (S3 Hapi). }
  rewrite (client_raw_unfold _ _ 0).
  pose proof (getAccessToken_footprint env options false w3) as F4.
  pose proof (getAccessToken_succeeds env options false w3) as S4.
  destruct (getAccessToken env options false w3) as [[tok''|e|] w4];
    simpl in F4, S4; destruct F4 as (Fm4 & Fd4 & _ & Fo4); [| |done].
  2: { split; [by eexists|]. split; [simpl; lia|].
       intros _ Hapi. by destruct (S4 Hapi). }
  unfold raw_after_token. rewrite request_ok by done.
  replace (data_calls w4) with (S (data_calls w)) by lia.
  rewrite Hj2, Hb2. simpl.
  split; [by eexists|]. split; [counters; lia|].
  intros _ _ data2 [= <-]. split; [done|]. counters. lia.
Qed.

(** C5, as the code has it. When the first two responses to a request
    both carry [{errcode: 40001}], [get] and [post] end by throwing after
    one retry: never more than two requests, exactly two once the path
    starts with '/' and the tokens are obtained, the error being the
    classified second response. [getRaw] and [postRaw] do the same when
    both responses have a content type that starts with
    [application/json]; a response of another content type, or of none,
    is returned as it is, the first one at once and the second one after
    the retry, although its body carries the code. Whatever fuel the
    recursion is given beyond two levels, the run is the same, so there is
    no second retry and no loop. *)
Theorem double_40001_fails (path : string) (params : JsObject) (w : World) :
  carries_40001 (data_api env (data_calls w)) →
  carries_40001 (data_api env (S (data_calls w))) →
  fails_after_one_retry env (get env options path params) path w ∧
  fails_after_one_retry env (post env options path params) path w ∧
  (json_typed (data_api env (data_calls w)) →
   json_typed (data_api env (S (data_calls w))) →
   fails_after_one_retry env (getRaw env options path params) path w ∧
   fails_after_one_retry env (postRaw env options path params) path w) ∧
  (starts_with_slash path →
   (∀ n, ∃ token expires_in,
      token_api env n = AccessTokenResponse token expires_in) →
   (not_json_typed (data_api env (data_calls w)) →
      returns_after (getRaw env options path params)
        (data_api env (data_calls w)) 1 w ∧
      returns_after (postRaw env options path params)
        (data_api env (data_calls w)) 1 w) ∧
   (json_typed (data_api env (data_calls w)) →
    not_json_typed (data_api env (S (data_calls w))) →
      returns_after (getRaw env options path params)
        (data_api env (S (data_calls w))) 2 w ∧
      returns_after (postRaw env options path params)
        (data_api env (S (data_calls w))) 2 w)) ∧
  (∀ fuel,
     client_request env options (S (S fuel)) GET path params false w
       = get env options path params w ∧
     client_request env options (S (S fuel)) POST path params false w
       = post env options path params w ∧
     client_raw env options (S (S fuel)) GET path params false w
       = getRaw env options path params w ∧
     client_raw env options (S (S fuel)) POST path params false w
       = postRaw env options path params w).
Proof.
  intros H1 H2. unfold get, post, getRaw, postRaw.
  split; [by apply client_request_double_40001|].
  split; [by apply client_request_double_40001|].
  split; [|split].
  - intros Hj1%json_typed_iff Hj2%json_typed_iff.
    split; by apply client_raw_double_40001.
  - intros Hs%starts_with_slash_iff Hapi. split.
    + intros Hj1%not_json_typed_iff.
      destruct (getAccessToken_succeeds env options false w Hapi) as [tok Htok].
      split; by apply (client_raw_returns_at_once env options _ _ _ _ tok).
    + intros Hj1%json_typed_iff Hj2%not_json_typed_iff.
      assert (∀ method,
                returns_after (client_raw env options 2 method path params false)
                  (data_api env (S (data_calls w))) 2 w) as Hret.
      { intros method.
        destruct (client_raw_second_response env options method path params w
                    Hs Hapi H1 Hj1) as [Hfst Hcalls].
        rewrite Hj2 in Hfst. by split. }
      split; apply Hret.
  - intros fuel.
    pose proof (client_request_footprint env options fuel GET path params w)
      as [Hget _].
    pose proof (client_request_footprint env options fuel POST path params w)
      as [Hpost _].
    pose proof (client_raw_footprint env options fuel GET path params w)
      as [HgetRaw _].
    pose proof (client_raw_footprint env options fuel POST path params w)
      as [HpostRaw _].
    done.
Qed.

End ClientOutcomes.

(** Two 40001 responses in a row, sent as JSON: [get] and [getRaw] throw
    the classified second response after two requests. *)
Lemma double_40001_fails_witness :
  let remote := demo_remote (λ _, response_40001) in
  let failure : JsError :=
    WeixinThrown
      (createError (failed_message "/cgi-bin/quota")
         {[ "errcode" := JNum 40001; "errmsg" := JStr "invalid credential" ]}) in
  (fst (get remote demo_options "/cgi-bin/quota" ∅ empty_world) = Thrown failure ∧
   data_calls (snd (get remote demo_options "/cgi-bin/quota" ∅ empty_world))
     = 2%nat) ∧
  (fst (getRaw remote demo_options "/cgi-bin/quota" ∅ empty_world) = Thrown failure ∧
   data_calls (snd (getRaw remote demo_options "/cgi-bin/quota" ∅ empty_world))
     = 2%nat).
Proof.
  intros remote failure.
  assert (Hcarries : ∀ n, carries_40001 (data_api remote n))
    by (intros n; eexists; split; [reflexivity | vm_compute; reflexivity]).
  assert (Hjson : ∀ n, json_typed (data_api remote n))
    by (intros n; by exists "; charset=UTF-8").
  assert (Hslash : starts_with_slash "/cgi-bin/quota")
    by (by exists "cgi-bin/quota").
  assert (Hapi : ∀ n, ∃ token expires_in,
            token_api remote n = AccessTokenResponse token expires_in)
    by (intros n; by eexists _, _).
  destruct (double_40001_fails remote demo_options "/cgi-bin/quota" ∅
              empty_world (Hcarries _) (Hcarries _))
    as ((_ & _ & Hget) & _ & Hraw & _).
  destruct (Hraw (Hjson _) (Hjson _)) as [(_ & _ & HgetRaw) _].
  destruct (Hget Hslash Hapi _ eq_refl) as (Hg1 & Hg2 & _).
  destruct (HgetRaw Hslash Hapi _ eq_refl) as (Hr1 & Hr2 & _).
  split; split; assumption.
Defined.

(** The claim C5 fails for the raw forms: two responses that carry
    [{errcode: 40001}] under the content type [text/plain] are no error
    to [getRaw] and [postRaw]; the first one is returned after one
    request, and there is no retry. *)
Lemma raw_40001_as_text_is_returned :
  let remote := demo_remote (λ _, response_40001_as_text) in
  carries_40001 (data_api remote 0) ∧
  carries_40001 (data_api remote 1) ∧
  fst (getRaw remote demo_options "/cgi-bin/quota" ∅ empty_world)
    = Returned response_40001_as_text ∧
  data_calls (snd (getRaw remote demo_options "/cgi-bin/quota" ∅ empty_world))
    = 1%nat ∧
  fst (postRaw remote demo_options "/cgi-bin/quota" ∅ empty_world)
    = Returned response_40001_as_text ∧
  data_calls (snd (postRaw remote demo_options "/cgi-bin/quota" ∅ empty_world))
    = 1%nat.
Proof.
  intros remote.
  assert (Hcarries : ∀ n, carries_40001 (data_api remote n))
    by (intros n; eexists; split; [reflexivity | vm_compute; reflexivity]).
  split; [apply Hcarries |]. split; [apply Hcarries |].
  vm_compute. repeat split.
Qed.

Section RawForm.

Variable env : Remote.
Variable options : WeixinOptions.

(** [#raw] returns a response only from the branch of a content type that
    is not JSON. *)
Lemma client_raw_returns_non_json (fuel : nat) (method : Method)
    (path : string) (params : JsObject) (isRetry : bool) (w w' : World)
    (res : Response) :
  client_raw env options fuel method path params isRetry w = (Returned res, w') →
  is_json_content res = false.
Proof.
  revert isRetry w. induction fuel as [|fuel IH]; intros isRetry w H; [done |].
  rewrite client_raw_unfold in H.
  destruct (getAccessToken env options false w) as [[tok|e|] w1]; try done.
  unfold raw_after_token in H.
  destruct (request env method path (Some tok) params w1) as [[r|e|] w2];
    try done.
  destruct (is_json_content r) eqn:Hjson; [|congruence].
  destruct (json_body r) as [data|]; [|done].
  destruct (negb isRetry && strict_eq_num (data !! "errcode") 40001); [|done].
  destruct (getAccessToken env options true w2) as [[?|?|] w3]; try done.
  by apply IH in H.
Qed.

(** C1, as the code has it. [getRaw] and [postRaw] return a response by
    its content type, not by its [errcode]. A response that they return
    has a content type that does not start with [application/json], or
    none. With a path that starts with '/' and a token obtained, a first
    response of such a content type is returned as it is after the one
    network call; a first response whose content type starts with
    [application/json] is never returned: its parsed body is thrown as
    the classified error unless its [errcode] is 40001, also when it has no
    [errcode] or [errcode] 0; with 40001 the token is refreshed, and if the
    refresh fails the call ends with the error of the token call after the
    one network call. When the token endpoint answers with tokens, the
    request is sent once more: a second response that is not JSON is
    returned, and the parsed body of a second response that is JSON is
    thrown as the classified error, whatever its [errcode]. *)
Theorem raw_success_is_by_content_type (path : string) (params : JsObject)
    (w : World) :
  (∀ res w',
     getRaw env options path params w = (Returned res, w') ∨
     postRaw env options path params w = (Returned res, w') →
     not_json_typed res) ∧
  (starts_with_slash path →
   ∀ accessToken,
     fst (getAccessToken env options false w) = Returned accessToken →
     (not_json_typed (data_api env (data_calls w)) →
        raw_forms_end env options path params
          (Returned (data_api env (data_calls w))) 1 w) ∧
     (json_typed (data_api env (data_calls w)) →
      ∀ data, json_body (data_api env (data_calls w)) = Some data →
        data !! "errcode" ≠ Some (JNum 40001) →
        raw_forms_end env options path params
          (Thrown (WeixinThrown (createError (failed_message path) data))) 1 w) ∧
     (json_typed (data_api env (data_calls w)) →
      carries_40001 (data_api env (data_calls w)) →
      ∀ e,
        failed_as "Unable to get an access token."
          (token_api env (token_calls (snd (getAccessToken env options false w))))
          e →
        raw_forms_end env options path params (Thrown e) 1 w)) ∧
  (starts_with_slash path →
   (∀ n, ∃ token expires_in,
      token_api env n = AccessTokenResponse token expires_in) →
   json_typed (data_api env (data_calls w)) →
   carries_40001 (data_api env (data_calls w)) →
   (not_json_typed (data_api env (S (data_calls w))) →
      raw_forms_end env options path params
        (Returned (data_api env (S (data_calls w)))) 2 w) ∧
   (json_typed (data_api env (S (data_calls w))) →
    ∀ data2, json_body (data_api env (S (data_calls w))) = Some data2 →
      raw_forms_end env options path params
        (Thrown (WeixinThrown (createError (failed_message path) data2))) 2 w)).
Proof.
  unfold raw_forms_end, getRaw, postRaw. split; [|split].
  - intros res w' [H|H]; apply not_json_typed_iff;
      by apply client_raw_returns_non_json in H.
  - intros Hs%starts_with_slash_iff tok Htok. split; [|split].
    + intros Hj%not_json_typed_iff.
      split; by apply (client_raw_returns_at_once env options _ _ _ _ tok).
    + intros Hj%json_typed_iff data Hbody Hcode.
      split; by apply (client_raw_throws_at_once env options _ _ _ _ _ tok).
    + intros Hj%json_typed_iff H1 e Hfail.
      split; by apply (client_raw_refresh_fails env options _ _ _ _ tok).
  - intros Hs%starts_with_slash_iff Hapi Hj1%json_typed_iff H1.
    pose proof (client_raw_second_response env options GET path params w
                  Hs Hapi H1 Hj1) as [Hg Hgc].
    pose proof (client_raw_second_response env options POST path params w
                  Hs Hapi H1 Hj1) as [Hp Hpc].
    split.
    + intros Hj2%not_json_typed_iff. rewrite Hj2 in Hg, Hp. done.
    + intros Hj2%json_typed_iff data2 Hbody2.
      rewrite Hj2, Hbody2 in Hg, Hp. done.
Qed.

End RawForm.

(** The claim C1 fails: a JSON response with [errcode] 0, or with no
    [errcode], makes [getRaw] and [postRaw] throw. *)
Lemma raw_json_success_throws :
  (json_body response_ok = Some {[ "errcode" := JNum 0; "errmsg" := JStr "ok" ]} ∧
   fst (postRaw (demo_remote (λ _, response_ok)) demo_options
          "/wxa/getwxacodeunlimit" ∅ empty_world)
     = Thrown (WeixinThrown
         (mkWeixinError WeixinErrorClass
            "Request to '/wxa/getwxacodeunlimit' is failed."
            {[ "errcode" := JNum 0; "errmsg" := JStr "ok" ]}))) ∧
  (json_body response_no_errcode = Some {[ "quota" := JOther 0 ]} ∧
   fst (getRaw (demo_remote (λ _, response_no_errcode)) demo_options
          "/cgi-bin/quota" ∅ empty_world)
     = Thrown (WeixinThrown
         (mkWeixinError WeixinErrorClass
            "Request to '/cgi-bin/quota' is failed."
            {[ "quota" := JOther 0 ]}))).
Proof. vm_compute. repeat split; reflexivity. Qed.

(** An image is returned by [getRaw] and [postRaw]; a JSON body with
    [errcode] 0 is thrown as an error; and after a first response 40001 a
    second JSON body with [errcode] 0 is thrown as well. *)
Lemma raw_success_is_by_content_type_witness :
  let path := "/wxa/getwxacodeunlimit" in
  let ok : JsObject := {[ "errcode" := JNum 0; "errmsg" := JStr "ok" ]} in
  let retried n := match n with O => response_40001 | _ => response_ok end in
  raw_forms_end (demo_remote (λ _, response_image)) demo_options path ∅
    (Returned response_image) 1 empty_world ∧
  raw_forms_end (demo_remote (λ _, response_ok)) demo_options path ∅
    (Thrown (WeixinThrown (createError (failed_message path) ok))) 1 empty_world ∧
  raw_forms_end (demo_remote retried) demo_options path ∅
    (Thrown (WeixinThrown (createError (failed_message path) ok))) 2 empty_world.
Proof.
  intros path ok retried.
  assert (Hslash : starts_with_slash path) by (by exists "wxa/getwxacodeunlimit").
  split; [|split].
  - refine (proj1 (proj1 (proj2
      (raw_success_is_by_content_type (demo_remote (λ _, response_image))
         demo_options path ∅ empty_world)) Hslash "token-1" eq_refl) _).
    intros rest. vm_compute. discriminate.
  - refine (proj1 (proj2 (proj1 (proj2
      (raw_success_is_by_content_type (demo_remote (λ _, response_ok))
         demo_options path ∅ empty_world)) Hslash "token-1" eq_refl)) _ ok eq_refl _).
    + by exists "".
    + vm_compute. discriminate.
  - refine (proj2 (proj2 (proj2
      (raw_success_is_by_content_type (demo_remote retried)
         demo_options path ∅ empty_world)) Hslash _ _ _) _ ok eq_refl).
    + intros n. by eexists _, _.
    + by exists "; charset=UTF-8".
    + eexists. split; [reflexivity | vm_compute; reflexivity].
    + by exists "".
Defined.

Section Retry.

Variable env : Remote.
Variable options : WeixinOptions.

#[local] Arguments client_request : simpl never.
#[local] Arguments client_raw : simpl never.

(** The first call of [getAccessToken] calls the token endpoint when it
    finds no valid token, and does not call it when it finds one. *)
Lemma getAccessToken_token_calls (w : World) :
  (no_valid_token_cached env options w →
     token_calls (snd (getAccessToken env options false w)) = S (token_calls w)) ∧
  (valid_token_cached env options w →
     token_calls (snd (getAccessToken env options false w)) = token_calls w).
Proof.
  split.
  - intros [Hnone | (entry & Hentry & Hold)].
    + rewrite (getAccessToken_miss env options w Hnone).
      destruct (token_api env (token_calls w)); by counters.
    + rewrite (getAccessToken_expired env options w entry Hentry Hold).
      destruct (token_api env (token_calls w)); by counters.
  - intros (entry & Hentry & Hfresh).
    rewrite (getAccessToken_hit env options w entry Hentry Hfresh).
    by counters.
Qed.

Lemma tokens_outlive_answers :
  tokens_outlive_a_step env →
  ∀ n, ∃ token expires_in,
    token_api env n = AccessTokenResponse token expires_in.
Proof.
  intros Hout n. destruct (Hout n 0%nat) as (t & e & H & _). eauto.
Qed.

Variable path : string.
Variable params : JsObject.
Variable w : World.

Hypothesis path_ok : Str.first_is_slash path = true.
Hypothesis outlive : tokens_outlive_a_step env.
Hypothesis first_response : carries_40001 (data_api env (data_calls w)).

Lemma client_request_retry_run (method : Method) (payload : JsObject) :
  json_body (data_api env (S (data_calls w))) = Some payload →
  errcode_nonzero payload = false →
  retried_once env options
    (client_request env options 2 method path params false) payload
    method path params w.
Proof.
  intros Hb2 Hn2.
  destruct (carries_40001_flags _ first_response) as (d1 & Hb1 & Hn1 & He1).
  unfold retried_once.
  pose proof (getAccessToken_token_calls w) as [Tcold Twarm].
  pose proof (getAccessToken_footprint env options false w) as (_ & Fd & _).
  destruct (getAccessToken_succeeds env options false w
              (tokens_outlive_answers outlive)) as [tok1 Htok1].
  destruct (getAccessToken env options false w) as [[tok|e|] w1] eqn:Hget;
    simpl in Htok1, Fd, Tcold, Twarm |- *; try done.
  injection Htok1 as ->.
  destruct (outlive (token_calls w1) (clock_reads w1))
    as (tok2 & e2 & Hapi2 & Hfresh).
  assert (∃ store,
            client_request env options 2 method path params false w =
              (Returned payload,
               mkWorld store
                 (retry_events options method path params tok1 tok2
                    ++ events w1)%list)) as [store Hrun].
  { eexists. rewrite (client_request_unfold _ _ 1), Hget.
    unfold request_after_token at 1. rewrite request_ok by done.
    rewrite Fd, Hb1, Hn1, He1. cbn [negb andb].
    rewrite getAccessToken_force. counters. rewrite Hapi2.
    rewrite (client_request_unfold _ _ 0).
    erewrite getAccessToken_hit;
      [| simpl; apply lookup_insert_eq | by counters].
    unfold request_after_token. rewrite request_ok by done.
    counters. rewrite Fd, Hb2, Hn2. reflexivity. }
  exists tok1, tok2, e2. rewrite Hrun. simpl.
  split; [done |]. split; [done |]. split; [done |]. split; [done |].
  counters. split; [lia |].
  split; intros H; [rewrite (Tcold H) | rewrite (Twarm H)]; lia.
Qed.

Lemma client_raw_retry_run (method : Method) :
  is_json_content (data_api env (data_calls w)) = true →
  is_json_content (data_api env (S (data_calls w))) = false →
  retried_once env options
    (client_raw env options 2 method path params false)
    (data_api env (S (data_calls w))) method path params w.
Proof.
  intros Hj1 Hj2.
  destruct (carries_40001_flags _ first_response) as (d1 & Hb1 & Hn1 & He1).
  unfold retried_once.
  pose proof (getAccessToken_token_calls w) as [Tcold Twarm].
  pose proof (getAccessToken_footprint env options false w) as (_ & Fd & _).
  destruct (getAccessToken_succeeds env options false w
              (tokens_outlive_answers outlive)) as [tok1 Htok1].
  destruct (getAccessToken env options false w) as [[tok|e|] w1] eqn:Hget;
    simpl in Htok1, Fd, Tcold, Twarm |- *; try done.
  injection Htok1 as ->.
  destruct (outlive (token_calls w1) (clock_reads w1))
    as (tok2 & e2 & Hapi2 & Hfresh).
  assert (∃ store,
            client_raw env options 2 method path params false w =
              (Returned (data_api env (S (data_calls w))),
               mkWorld store
                 (retry_events options method path params tok1 tok2
                    ++ events w1)%list)) as [store Hrun].
  { eexists. rewrite (client_raw_unfold _ _ 1), Hget.
    unfold raw_after_token at 1. rewrite request_ok by done.
    rewrite Fd, Hj1, Hb1, He1. cbn [negb andb].
    rewrite getAccessToken_force. counters. rewrite Hapi2.
    rewrite (client_raw_unfold _ _ 0).
    erewrite getAccessToken_hit;
      [| simpl; apply lookup_insert_eq | by counters].
    unfold raw_after_token. rewrite request_ok by done.
    counters. rewrite Fd, Hj2. reflexivity. }
  exists tok1, tok2, e2. rewrite Hrun. simpl.
  split; [done |]. split; [done |]. split; [done |]. split; [done |].
  counters. split; [lia |].
  split; intros H; [rewrite (Tcold H) | rewrite (Twarm H)]; lia.
Qed.

End Retry.




(** * Further properties of the code *)

(** ** The memory store *)

Section StoreMore.

Variable env : Remote.

(** X1. Whatever the store holds, [get] never throws; a token it returns
    is the one of an entry under the key that expires after the clock
    reading, and the dictionary is left as it is; after a [get] that
    returns [null] there is no entry under the key; entries under other
    keys are never touched. *)
Theorem store_get_sound (key : string) (w : World) :
  (∃ result, fst (store_get env key w) = Returned result) ∧
  (∀ token, fst (store_get env key w) = Returned (Some token) →
     ∃ entry, tokens w !! key = Some entry ∧ data entry = token ∧
       clock env (clock_reads w) < expiresAt entry ∧
       tokens (snd (store_get env key w)) = tokens w) ∧
  (fst (store_get env key w) = Returned None →
     tokens (snd (store_get env key w)) !! key = None) ∧
  (∀ k, k ≠ key →
     tokens (snd (store_get env key w)) !! k = tokens w !! k).
Proof.
  destruct (tokens w !! key) as [entry|] eqn:E.
  - destruct (Z.lt_ge_cases (clock env (clock_reads w)) (expiresAt entry)) as [H|H].
    + rewrite (store_get_fresh env key entry w E H). simpl.
      split; [by eexists |]. split; [|split; [done | done]].
      intros token [= <-]. by exists entry.
    + rewrite (store_get_expired env key entry w E H). simpl.
      split; [by eexists |]. split; [done |]. split.
      * intros _. apply lookup_delete_eq.
      * intros k Hk. by rewrite lookup_delete_ne.
  - rewrite (store_get_absent env key w E). simpl.
    split; [by eexists |]. split; [done |]. split; done.
Qed.

(** X2. After [delete] there is no entry under the key, so the next [get]
    returns [null] whatever the clock reads; the other entries are kept,
    and deleting a key that has no entry leaves the dictionary as it is.
    After [_clear] every [get] returns [null]. *)
Theorem store_delete_then_get (key : string) (w : World) :
  fst (store_get env key (snd (store_delete key w))) = Returned None ∧
  (∀ k, k ≠ key → tokens (snd (store_delete key w)) !! k = tokens w !! k) ∧
  (tokens w !! key = None → tokens (snd (store_delete key w)) = tokens w) ∧
  (∀ k, fst (store_get env k (snd (store_clear w))) = Returned None).
Proof.
  rewrite store_delete_eq. simpl. split; [|split; [|split]].
  - rewrite store_get_absent; [done |]. simpl. apply lookup_delete_eq.
  - intros k Hk. by rewrite lookup_delete_ne.
  - intros H. by apply delete_id.
  - intros k. rewrite store_get_absent; [done |]. simpl. apply lookup_empty.
Qed.

(** X3. A second [set] under the same key replaces the entry, token and
    expiry: the TTL of the first [set] no longer counts, and a [get]
    before the new expiry returns the second token. A [set] leaves the
    entries under other keys as they are. *)
Theorem store_set_overwrites (key : string) (token1 token2 : WeixinToken)
    (ttl1 ttl2 : Z) (w : World) :
  let w1 := snd (store_set env key token1 ttl1 w) in
  let w2 := snd (store_set env key token2 ttl2 w1) in
  tokens w2 =
    <[key := mkEntry token2 (clock env (S (clock_reads w)) + ttl2 * 1000)]>
      (tokens w) ∧
  (clock env (S (S (clock_reads w)))
     < clock env (S (clock_reads w)) + ttl2 * 1000 →
   fst (store_get env key w2) = Returned (Some token2)) ∧
  (∀ k, k ≠ key → tokens w2 !! k = tokens w !! k).
Proof.
  intros w1 w2. subst w1 w2. rewrite !store_set_eq. simpl.
  split; [|split].
  - unfold clock_reads. simpl. apply insert_insert_eq.
  - intros Hfresh.
    rewrite (store_get_fresh env key
               (mkEntry token2 (clock env (S (clock_reads w)) + ttl2 * 1000)));
      [done | | ].
    + unfold clock_reads. simpl. apply lookup_insert_eq.
    + unfold clock_reads in *. simpl. exact Hfresh.
  - intros k Hk. by rewrite !lookup_insert_ne.
Qed.

(** X4. On a clock that never goes backwards, a token stored with a TTL
    that is zero or negative is never returned: every later [get] of the
    key, as long as the entry has not been written again, returns
    [null]. *)
Theorem store_nonpositive_ttl_expired (key : string) (token : WeixinToken)
    (ttl : Z) (w w2 : World) :
  monotone_clock env →
  ttl ≤ 0 →
  (clock_reads w ≤ clock_reads w2)%nat →
  tokens w2 !! key = tokens (snd (store_set env key token ttl w)) !! key →
  fst (store_get env key w2) = Returned None.
Proof.
  intros Hmono Httl Hlater Hsame. rewrite store_set_eq in Hsame. simpl in Hsame.
  rewrite lookup_insert_eq in Hsame.
  rewrite (store_get_expired env key _ w2 Hsame); [done |]. simpl.
  specialize (Hmono _ _ Hlater). lia.
Qed.

End StoreMore.

Lemma store_get_sound_witness :
  fst (store_get (demo_remote (λ _, response_ok))
         (cache_key demo_options false) warm_world)
    = Returned (Some (mkToken "cached" None)) ∧
  ∃ entry, tokens warm_world !! cache_key demo_options false = Some entry ∧
    data entry = mkToken "cached" None.
Proof.
  assert (H : fst (store_get (demo_remote (λ _, response_ok))
                     (cache_key demo_options false) warm_world)
              = Returned (Some (mkToken "cached" None)))
    by (vm_compute; reflexivity).
  split; [exact H |].
  destruct (proj1 (proj2 (store_get_sound (demo_remote (λ _, response_ok))
              (cache_key demo_options false) warm_world)) _ H)
    as (entry & He & Hd & _).
  exists entry. split; assumption.
Defined.

Lemma store_delete_then_get_witness :
  tokens (snd (store_delete "absent" warm_world)) = tokens warm_world.
Proof.
  apply (store_delete_then_get (demo_remote (λ _, response_ok)) "absent" warm_world).
  vm_compute. reflexivity.
Defined.

Lemma store_set_overwrites_witness :
  let remote := demo_remote (λ _, response_ok) in
  fst (store_get remote "key"
         (snd (store_set remote "key" (mkToken "second" None) 60
                 (snd (store_set remote "key" (mkToken "first" None) 0
                         empty_world)))))
    = Returned (Some (mkToken "second" None)).
Proof.
  intros remote.
  apply (store_set_overwrites remote "key" (mkToken "first" None)
           (mkToken "second" None) 0 60 empty_world).
  vm_compute. reflexivity.
Defined.

Lemma store_nonpositive_ttl_expired_witness :
  let remote := demo_remote (λ _, response_ok) in
  fst (store_get remote "key"
         (snd (store_set remote "key" (mkToken "token" None) (-5) empty_world)))
    = Returned None.
Proof.
  intros remote.
  apply (store_nonpositive_ttl_expired remote "key" (mkToken "token" None) (-5)
           empty_world).
  - intros i j Hij. simpl. lia.
  - lia.
  - vm_compute. lia.
  - reflexivity.
Defined.

(** ** The token manager *)

Section ManagerMore.

Variable env : Remote.
Variable options : WeixinOptions.

Lemma getStableAccessToken_expired (w : World) (entry : Token) :
  tokens w !! cache_key options true = Some entry →
  expiresAt entry ≤ clock env (clock_reads w) →
  getStableAccessToken env options false w =
    match stable_api env (stable_calls w) with
    | AccessTokenResponse token expires_in =>
        (Returned token,
         mkWorld (<[cache_key options true :=
                      fresh_entry token expires_in (clock env (S (clock_reads w)))]>
                    (delete (cache_key options true) (tokens w)))
           (EvDateNow :: EvStoreSet (cache_key options true)
              :: EvCreateStableAccessToken (appid options) (secret options) false
              :: EvDateNow :: EvStoreGet (cache_key options true)
              :: EvGetStableAccessToken false :: events w))
    | answer =>
        (Thrown (token_failure "Unable to get a stable access token." answer),
         mkWorld (delete (cache_key options true) (tokens w))
           (EvCreateStableAccessToken (appid options) (secret options) false
              :: EvDateNow :: EvStoreGet (cache_key options true)
              :: EvGetStableAccessToken false :: events w))
    end.
Proof.
  intros H Hle. run. rewrite H. simpl. case_leb; [|lia]. simpl.
  by destruct (stable_api env (count is_stable_call (events w))).
Qed.

(** Split a call of [getAccessToken] into its runs: forced, cache hit,
    expired entry, no entry; each with a token or an error payload. *)
Ltac standard_runs fr w :=
  destruct fr;
  [ rewrite (getAccessToken_force env options w);
    destruct (token_api env (token_calls w)) as [?t ?e|?payload| | |] eqn:?Hapi
  | destruct (tokens w !! cache_key options false) as [?entry|] eqn:?Hentry;
    [ match goal with
      | H : tokens w !! _ = Some ?entry |- _ =>
          destruct (Z.lt_ge_cases (clock env (clock_reads w)) (expiresAt entry))
            as [?Hfresh|?Hold];
          [ rewrite (getAccessToken_hit env options w entry H) by assumption
          | rewrite (getAccessToken_expired env options w entry H) by assumption;
            destruct (token_api env (token_calls w)) as [?t ?e|?payload| | |] eqn:?Hapi ]
      end
    | match goal with
      | H : tokens w !! _ = None |- _ =>
          rewrite (getAccessToken_miss env options w H);
          destruct (token_api env (token_calls w)) as [?t ?e|?payload| | |] eqn:?Hapi
      end ] ].

Ltac stable_runs fr w :=
  destruct fr;
  [ rewrite (getStableAccessToken_force env options w);
    destruct (stable_api env (stable_calls w)) as [?t ?e|?payload| | |] eqn:?Hapi
  | destruct (tokens w !! cache_key options true) as [?entry|] eqn:?Hentry;
    [ match goal with
      | H : tokens w !! _ = Some ?entry |- _ =>
          destruct (Z.lt_ge_cases (clock env (clock_reads w)) (expiresAt entry))
            as [?Hfresh|?Hold];
          [ rewrite (getStableAccessToken_hit env options w entry H) by assumption
          | rewrite (getStableAccessToken_expired w entry H) by assumption;
            destruct (stable_api env (stable_calls w)) as [?t ?e|?payload| | |] eqn:?Hapi ]
      end
    | match goal with
      | H : tokens w !! _ = None |- _ =>
          rewrite (getStableAccessToken_miss env options w H);
          destruct (stable_api env (stable_calls w)) as [?t ?e|?payload| | |] eqn:?Hapi
      end ] ].

(** An error of [getAccessToken] is the failure of its call of the token
    endpoint, and leaves no entry under the key. *)
Lemma getAccessToken_throws_classified (forceRefresh : bool) (w : World)
    (e : JsError) :
  fst (getAccessToken env options forceRefresh w) = Thrown e →
  failed_as "Unable to get an access token." (token_api env (token_calls w)) e ∧
  tokens (snd (getAccessToken env options forceRefresh w))
    !! cache_key options false = None ∧
  token_calls (snd (getAccessToken env options forceRefresh w))
    = S (token_calls w).
Proof.
  unfold failed_as.
  standard_runs forceRefresh w; simpl; intros [= <-];
    (split; [by eauto 6 |]);
    (split; [first [apply lookup_delete_eq | assumption] | reflexivity]).
Qed.

Lemma getStableAccessToken_throws_classified (forceRefresh : bool) (w : World)
    (e : JsError) :
  fst (getStableAccessToken env options forceRefresh w) = Thrown e →
  failed_as "Unable to get a stable access token."
    (stable_api env (stable_calls w)) e ∧
  tokens (snd (getStableAccessToken env options forceRefresh w))
    !! cache_key options true = None ∧
  stable_calls (snd (getStableAccessToken env options forceRefresh w))
    = S (stable_calls w).
Proof.
  unfold failed_as.
  stable_runs forceRefresh w; simpl; intros [= <-];
    (split; [by eauto 6 |]);
    (split; [first [apply lookup_delete_eq | assumption] | reflexivity]).
Qed.

Lemma failed_as_not_plain (message : string) (answer : TokenResponse)
    (msg : string) :
  ¬ failed_as message answer (PlainError msg).
Proof. intros [(? & _ & ?) | [[_ ?] | [[_ ?] | [_ ?]]]]; done. Qed.

(** X5. The standard and the stable token of a client live under
    different keys and come from different endpoints: a call of
    [getAccessToken], forced or not, never changes the stable entry and
    never calls the stable endpoint, and the other way round. *)
Theorem token_kinds_are_independent (forceRefresh : bool) (w : World) :
  cache_key options false ≠ cache_key options true ∧
  tokens (snd (getAccessToken env options forceRefresh w))
    !! cache_key options true = tokens w !! cache_key options true ∧
  stable_calls (snd (getAccessToken env options forceRefresh w))
    = stable_calls w ∧
  tokens (snd (getStableAccessToken env options forceRefresh w))
    !! cache_key options false = tokens w !! cache_key options false ∧
  token_calls (snd (getStableAccessToken env options forceRefresh w))
    = token_calls w.
Proof.
  assert (Hne : cache_key options false ≠ cache_key options true).
  { unfold cache_key. intros H. by apply compositeKey_inj in H as [_ ?]. }
  split; [done |]. split; [|split; [|split]].
  - by apply getAccessToken_other_key.
  - standard_runs forceRefresh w; reflexivity.
  - by apply getStableAccessToken_other_key.
  - stable_runs forceRefresh w; reflexivity.
Qed.

(** X6. The token that [getAccessToken] (or [getStableAccessToken])
    returns is the one the store holds under the client's key when the
    call ends, on every path: cache hit, fetch after a miss or an expiry,
    forced refresh. *)
Theorem returned_token_is_cached (forceRefresh : bool) (w : World) :
  (∀ token, fst (getAccessToken env options forceRefresh w) = Returned token →
     ∃ entry,
       tokens (snd (getAccessToken env options forceRefresh w))
         !! cache_key options false = Some entry ∧
       access_token (data entry) = token) ∧
  (∀ token, fst (getStableAccessToken env options forceRefresh w) = Returned token →
     ∃ entry,
       tokens (snd (getStableAccessToken env options forceRefresh w))
         !! cache_key options true = Some entry ∧
       access_token (data entry) = token).
Proof.
  split.
  - standard_runs forceRefresh w; simpl; intros token [= <-];
      first [ by eexists
            | eexists; split; [apply lookup_insert_eq | done] ].
  - stable_runs forceRefresh w; simpl; intros token [= <-];
      first [ by eexists
            | eexists; split; [apply lookup_insert_eq | done] ].
Qed.

(** X7. [getAccessToken] throws only when it has called the token
    endpoint and the call has not come to a token: the error is the
    classified payload under the message of the token kind when the
    answer is an error payload, the [TypeError] of the [in] operator when
    the body is no object, and the rejection of [fetch] or of
    [res.json()] otherwise. When the call ends there is no entry under
    the client's key, also without a forced refresh (a missing entry stays
    missing, an expired one has been evicted). The same holds for
    [getStableAccessToken]. *)
Theorem token_failure_leaves_no_entry (forceRefresh : bool) (w : World)
    (e : JsError) :
  (fst (getAccessToken env options forceRefresh w) = Thrown e →
     failed_as "Unable to get an access token."
       (token_api env (token_calls w)) e ∧
     tokens (snd (getAccessToken env options forceRefresh w))
       !! cache_key options false = None ∧
     token_calls (snd (getAccessToken env options forceRefresh w))
       = S (token_calls w)) ∧
  (fst (getStableAccessToken env options forceRefresh w) = Thrown e →
     failed_as "Unable to get a stable access token."
       (stable_api env (stable_calls w)) e ∧
     tokens (snd (getStableAccessToken env options forceRefresh w))
       !! cache_key options true = None ∧
     stable_calls (snd (getStableAccessToken env options forceRefresh w))
       = S (stable_calls w)).
Proof.
  split.
  - apply getAccessToken_throws_classified.
  - apply getStableAccessToken_throws_classified.
Qed.

(** X8. The ten-second margin. After a forced refresh at the clock
    reading [t0] has stored a token that the endpoint gave [expires_in]
    seconds, a later [getAccessToken()] serves it from the cache, without
    a remote call, while less than [expires_in - 10] seconds have passed,
    and calls the token endpoint again from then on. A token with
    [expires_in] of 10 or less is therefore never served from the cache
    on a clock that does not go backwards. *)
Theorem cached_token_served_until_margin (w w2 : World) (token : string)
    (expires_in : Z) :
  token_api env (token_calls w) = AccessTokenResponse token expires_in →
  tokens w2 !! cache_key options false
    = tokens (snd (getAccessToken env options true w)) !! cache_key options false →
  (clock env (clock_reads w2) - clock env (clock_reads w)
     < (expires_in - 10) * 1000 →
   fst (getAccessToken env options false w2) = Returned token ∧
   token_calls (snd (getAccessToken env options false w2)) = token_calls w2) ∧
  ((expires_in - 10) * 1000
     ≤ clock env (clock_reads w2) - clock env (clock_reads w) →
   token_calls (snd (getAccessToken env options false w2)) = S (token_calls w2)).
Proof.
  intros Hapi Hsame. rewrite getAccessToken_force, Hapi in Hsame. simpl in Hsame.
  rewrite lookup_insert_eq in Hsame. split; intros Ht.
  - rewrite (getAccessToken_hit env options w2 _ Hsame); [done |].
    unfold fresh_entry. simpl. lia.
  - rewrite (getAccessToken_expired env options w2 _ Hsame);
      [| unfold fresh_entry; simpl; lia].
    by destruct (token_api env (token_calls w2)).
Qed.

End ManagerMore.

Lemma returned_token_is_cached_witness :
  ∃ entry,
    tokens (snd (getAccessToken (demo_remote (λ _, response_ok)) demo_options
                   false empty_world))
      !! cache_key demo_options false = Some entry ∧
    access_token (data entry) = "token-1".
Proof.
  apply (returned_token_is_cached (demo_remote (λ _, response_ok)) demo_options
           false empty_world).
  vm_compute. reflexivity.
Defined.

Lemma token_failure_leaves_no_entry_witness :
  failed_as "Unable to get an access token."
    (TokenErrorResponse {[ "errcode" := JNum 40125; "errmsg" := JStr "invalid appsecret" ]})
    (WeixinThrown (createError "Unable to get an access token."
                     {[ "errcode" := JNum 40125; "errmsg" := JStr "invalid appsecret" ]})) ∧
  tokens (snd (getAccessToken failing_remote demo_options true warm_world))
    !! cache_key demo_options false = None ∧
  token_calls (snd (getAccessToken failing_remote demo_options true warm_world))
    = S (token_calls warm_world).
Proof.
  refine (proj1 (token_failure_leaves_no_entry failing_remote demo_options true
                   warm_world _) _).
  vm_compute. reflexivity.
Defined.

(** A token that the endpoint gives five seconds is fetched again by the
    next call. *)
Lemma cached_token_served_until_margin_witness :
  let remote :=
    mkRemote (λ n, Z.of_nat n) (λ _, AccessTokenResponse "short" 5)
      (λ _, AccessTokenResponse "short" 5) (λ _, response_ok) in
  let w1 := snd (getAccessToken remote demo_options true empty_world) in
  token_calls (snd (getAccessToken remote demo_options false w1))
    = S (token_calls w1).
Proof.
  intros remote w1.
  apply (cached_token_served_until_margin remote demo_options empty_world w1
           "short" 5).
  - reflexivity.
  - reflexivity.
  - vm_compute. discriminate.
Defined.

(** ** The transport *)

(** X9. With a path that starts with '/', [request] makes exactly one
    network call, with the given method, and leaves the store alone. A
    non-empty access token travels in the URL: for GET as the
    [access_token] entry of the [URLSearchParams] built from the
    parameters, in place of a parameter of that name given by the caller;
    for POST as the text ['?access_token=' + token] appended to the path,
    the token as it is. [null] or the empty string sends no token. The
    parameters are the other entries of the query of a GET, and the whole
    JSON body of a POST. *)
Theorem request_sends_token_in_url (env : Remote) (method : Method)
    (path : string) (accessToken : option string) (params : JsObject)
    (w : World) :
  (∃ rest, path = String "/"%char rest) →
  ∃ call,
    request env method path accessToken params w =
      (Returned (data_api env (data_calls w)),
       mkWorld (tokens w) (EvFetch call :: events w)) ∧
    fetch_method call = method ∧
    match method with
    | GET =>
        fetch_path call = path ∧ fetch_body call = None ∧
        (∀ token, accessToken = Some token → token ≠ "" →
           fetch_query call !! "access_token" = Some (JStr token)) ∧
        (accessToken = None ∨ accessToken = Some "" →
           fetch_query call = params) ∧
        (∀ k, k ≠ "access_token" → fetch_query call !! k = params !! k)
    | POST =>
        fetch_body call = Some params ∧ fetch_query call = ∅ ∧
        (∀ token, accessToken = Some token → token ≠ "" →
           fetch_path call = path +:+ "?access_token=" +:+ token) ∧
        (accessToken = None ∨ accessToken = Some "" → fetch_path call = path)
    end.
Proof.
  intros Hslash. apply StrFacts.first_is_slash_true in Hslash as Hp.
  exists (sent_call method path accessToken params).
  split; [by apply request_ok |].
  destruct method; simpl; (split; [done |]).
  - split; [done |]. split; [done |]. split; [|split].
    + intros token -> Hne. destruct token; [done |]. simpl.
      apply lookup_insert_eq.
    + by intros [-> | ->].
    + intros k Hk. destruct (truthy accessToken); [|done].
      by rewrite lookup_insert_ne.
  - split; [done |]. split; [done |]. split.
    + intros token -> Hne. by destruct token.
    + by intros [-> | ->].
Qed.

Lemma request_sends_token_in_url_witness :
  ∃ call,
    request (demo_remote (λ _, response_ok)) POST "/wxa/getwxacodeunlimit"
      (Some "tok&scene=evil") {[ "scene" := JStr "a=1" ]} empty_world =
      (Returned response_ok, mkWorld ∅ [EvFetch call]) ∧
    fetch_path call = "/wxa/getwxacodeunlimit?access_token=tok&scene=evil" ∧
    fetch_body call = Some {[ "scene" := JStr "a=1" ]}.
Proof.
  destruct (request_sends_token_in_url (demo_remote (λ _, response_ok)) POST
              "/wxa/getwxacodeunlimit" (Some "tok&scene=evil")
              {[ "scene" := JStr "a=1" ]} empty_world
              (ex_intro _ "wxa/getwxacodeunlimit" eq_refl))
    as (call & Hrun & _ & Hbody & _ & Hpath & _).
  exists call. split; [exact Hrun |]. split; [|exact Hbody].
  rewrite (Hpath "tok&scene=evil"); [reflexivity | reflexivity | discriminate].
Defined.

(** ** The request client *)

Section ClientMoreProperties.

Variable env : Remote.
Variable options : WeixinOptions.

#[local] Arguments client_request : simpl never.
#[local] Arguments client_raw : simpl never.


(** X10. When the first response is a success, the request ends after
    that one network call: [get] and [post] return a JSON body that has no
    [errcode] or [errcode] 0, [getRaw] and [postRaw] return a response
    that is not JSON; the world is the one [getAccessToken()] left, with
    the one call added, which carries the token that [getAccessToken()]
    returned. There is no forced refresh. *)
Theorem first_success_is_one_call (path : string) (params : JsObject)
    (w : World) (accessToken : string) :
  let w1 := snd (getAccessToken env options false w) in
  let after method :=
    mkWorld (tokens w1)
      (EvFetch (sent_call method path (Some accessToken) params) :: events w1) in
  Str.first_is_slash path = true →
  fst (getAccessToken env options false w) = Returned accessToken →
  (∀ data, json_body (data_api env (data_calls w)) = Some data →
     data !! "errcode" = None ∨ data !! "errcode" = Some (JNum 0) →
     get env options path params w = (Returned data, after GET) ∧
     post env options path params w = (Returned data, after POST)) ∧
  (is_json_content (data_api env (data_calls w)) = false →
     getRaw env options path params w
       = (Returned (data_api env (data_calls w)), after GET) ∧
     postRaw env options path params w
       = (Returned (data_api env (data_calls w)), after POST)).
Proof.
  intros w1 after Hp Htok. subst w1 after. unfold get, post, getRaw, postRaw.
  split.
  - intros data Hbody Hok.
    assert (Hcode : data !! "errcode" ≠ Some (JNum 40001))
      by (destruct Hok as [-> | ->]; done).
    assert (Hzero : errcode_nonzero data = false)
      by (unfold errcode_nonzero; destruct Hok as [-> | ->]; done).
    rewrite !(first_attempt_json env options _ path params data w accessToken Hp Htok Hbody Hcode).
    by rewrite Hzero.
  - intros Hj. split.
    + by apply (first_attempt_raw env options GET path params w accessToken Hp Htok).
    + by apply (first_attempt_raw env options POST path params w accessToken Hp Htok).
Qed.

(** X11. An error that is not the stale-token error 40001 is not
    retried. When the first response is such an error (for [get] and
    [post]: a JSON body whose [errcode] is neither the number 0 nor 40001;
    for [getRaw] and [postRaw]: a response whose content type starts with
    [application/json] and whose body has no [errcode] 40001), the call
    throws the classified body under the message
    "Request to '<path>' is failed." after that one network call, and
    there is no forced refresh: the store is the one [getAccessToken()]
    left. *)
Theorem other_error_is_not_retried (path : string) (params data : JsObject)
    (w : World) (accessToken : string) :
  let w1 := snd (getAccessToken env options false w) in
  let failed method :=
    (Thrown (WeixinThrown (createError (failed_message path) data)) : Outcome JsObject,
     mkWorld (tokens w1)
       (EvFetch (sent_call method path (Some accessToken) params) :: events w1)) in
  let failed_raw method :=
    (Thrown (WeixinThrown (createError (failed_message path) data)) : Outcome Response,
     mkWorld (tokens w1)
       (EvFetch (sent_call method path (Some accessToken) params) :: events w1)) in
  starts_with_slash path →
  fst (getAccessToken env options false w) = Returned accessToken →
  json_body (data_api env (data_calls w)) = Some data →
  (other_error data →
     get env options path params w = failed GET ∧
     post env options path params w = failed POST) ∧
  (json_typed (data_api env (data_calls w)) →
   data !! "errcode" ≠ Some (JNum 40001) →
     getRaw env options path params w = failed_raw GET ∧
     postRaw env options path params w = failed_raw POST).
Proof.
  intros w1 failed failed_raw Hp%starts_with_slash_iff Htok Hbody.
  subst w1 failed failed_raw. unfold get, post, getRaw, postRaw. split.
  - intros [Hn Hcode]%other_error_flags.
    rewrite !(first_attempt_json env options _ path params data w accessToken
                Hp Htok Hbody Hcode).
    by rewrite Hn.
  - intros Hj%json_typed_iff Hcode. split.
    + by apply (first_attempt_raw env options GET path params w accessToken Hp Htok).
    + by apply (first_attempt_raw env options POST path params w accessToken Hp Htok).
Qed.

End ClientMoreProperties.

Lemma first_success_is_one_call_witness :
  fst (get (demo_remote (λ _, response_no_errcode)) demo_options
         "/cgi-bin/quota" ∅ warm_world)
    = Returned {[ "quota" := JOther 0 ]} ∧
  data_calls (snd (get (demo_remote (λ _, response_no_errcode)) demo_options
                     "/cgi-bin/quota" ∅ warm_world)) = 1%nat.
Proof.
  destruct (proj1 (first_success_is_one_call
              (demo_remote (λ _, response_no_errcode)) demo_options
              "/cgi-bin/quota" ∅ warm_world "cached" eq_refl eq_refl)
              {[ "quota" := JOther 0 ]} eq_refl (or_introl eq_refl)) as [Hget _].
  rewrite Hget. split; reflexivity.
Defined.

(** The quota error 45009 ends [post] and [getRaw] after one request. *)
Lemma other_error_is_not_retried_witness :
  let remote := demo_remote (λ _, response_quota_exceeded) in
  let failure : JsError :=
    WeixinThrown
      (createError (failed_message "/cgi-bin/quota")
         {[ "errcode" := JNum 45009;
            "errmsg" := JStr "reach max api daily quota limit" ]}) in
  (fst (post remote demo_options "/cgi-bin/quota" ∅ warm_world) = Thrown failure ∧
   data_calls (snd (post remote demo_options "/cgi-bin/quota" ∅ warm_world))
     = 1%nat) ∧
  (fst (getRaw remote demo_options "/cgi-bin/quota" ∅ warm_world) = Thrown failure ∧
   data_calls (snd (getRaw remote demo_options "/cgi-bin/quota" ∅ warm_world))
     = 1%nat).
Proof.
  intros remote failure.
  destruct (other_error_is_not_retried remote demo_options "/cgi-bin/quota" ∅
              {[ "errcode" := JNum 45009;
                 "errmsg" := JStr "reach max api daily quota limit" ]}
              warm_world "cached") as [Hjson Hraw].
  - by exists "cgi-bin/quota".
  - reflexivity.
  - reflexivity.
  - destruct Hjson as [_ Hpost].
    { exists (JNum 45009). split; [vm_compute; reflexivity |]. by split. }
    destruct Hraw as [HgetRaw _].
    { by exists "". }
    { vm_compute. discriminate. }
    rewrite Hpost, HgetRaw. repeat split.
Defined.

Section RetryMore.

Variable env : Remote.
Variable options : WeixinOptions.

#[local] Arguments client_request : simpl never.
#[local] Arguments client_raw : simpl never.


(** X12. When the first response carries [{errcode: 40001}] and the
    forced refresh that follows gets an error payload from the token
    endpoint, the request is not sent again: the call throws the
    classified payload under "Unable to get an access token." (not the
    failed-request error), one network call has been made, and the
    client's entry is gone from the store. *)
Theorem failed_refresh_ends_request (path : string) (params payload : JsObject)
    (w : World) (accessToken : string) :
  Str.first_is_slash path = true →
  fst (getAccessToken env options false w) = Returned accessToken →
  carries_40001 (data_api env (data_calls w)) →
  token_api env (token_calls (snd (getAccessToken env options false w)))
    = TokenErrorResponse payload →
  ends_with_token_error options payload (get env options path params) w ∧
  ends_with_token_error options payload (post env options path params) w ∧
  (is_json_content (data_api env (data_calls w)) = true →
   ends_with_token_error options payload (getRaw env options path params) w ∧
   ends_with_token_error options payload (postRaw env options path params) w).
Proof.
  intros Hp Htok H1 Hapi. unfold get, post, getRaw, postRaw.
  split; [by eapply client_request_refresh_failure |].
  split; [by eapply client_request_refresh_failure |].
  intros Hj. split; by eapply client_raw_refresh_failure.
Qed.


(** X13. After the one retry every error is final, whatever its code.
    When the first response carries 40001 and the second response is again
    an error (for [get] and [post]: a JSON body whose [errcode] is not the
    number 0, also 40001 once more; for [getRaw] and [postRaw]: any
    response whose content type starts with [application/json], also one
    without [errcode], the first response being of such a content type
    too), the call throws the classified second body after exactly two
    network calls. *)
Theorem retried_error_is_final (path : string) (params data2 : JsObject)
    (w : World) :
  starts_with_slash path →
  (∀ n, ∃ token expires_in,
     token_api env n = AccessTokenResponse token expires_in) →
  carries_40001 (data_api env (data_calls w)) →
  json_body (data_api env (S (data_calls w))) = Some data2 →
  (reports_error data2 →
     fails_on_second_response (get env options path params) path data2 w ∧
     fails_on_second_response (post env options path params) path data2 w) ∧
  (json_typed (data_api env (data_calls w)) →
   json_typed (data_api env (S (data_calls w))) →
     fails_on_second_response (getRaw env options path params) path data2 w ∧
     fails_on_second_response (postRaw env options path params) path data2 w).
Proof.
  intros Hp%starts_with_slash_iff Hapi H1 Hb2.
  unfold get, post, getRaw, postRaw, fails_on_second_response. split.
  - intros Hn2%errcode_nonzero_iff.
    pose proof (client_request_second_response env options GET path params w
                  Hp Hapi H1) as [Hg Hgc].
    pose proof (client_request_second_response env options POST path params w
                  Hp Hapi H1) as [Hq Hqc].
    rewrite Hb2, Hn2 in Hg, Hq. done.
  - intros Hj1%json_typed_iff Hj2%json_typed_iff.
    pose proof (client_raw_second_response env options GET path params w
                  Hp Hapi H1 Hj1) as [Hg Hgc].
    pose proof (client_raw_second_response env options POST path params w
                  Hp Hapi H1 Hj1) as [Hq Hqc].
    rewrite Hj2, Hb2 in Hg, Hq. done.
Qed.

End RetryMore.

Lemma failed_refresh_ends_request_witness :
  let remote :=
    mkRemote (λ n, Z.of_nat n)
      (λ _, TokenErrorResponse {[ "errcode" := JNum 40125 ]})
      (λ _, TokenErrorResponse {[ "errcode" := JNum 40125 ]})
      (λ _, response_40001) in
  ends_with_token_error demo_options {[ "errcode" := JNum 40125 ]}
    (get remote demo_options "/cgi-bin/quota" ∅) warm_world.
Proof.
  intros remote.
  refine (proj1 (failed_refresh_ends_request remote demo_options
                   "/cgi-bin/quota" ∅ {[ "errcode" := JNum 40125 ]} warm_world
                   "cached" _ _ _ _)).
  - reflexivity.
  - reflexivity.
  - eexists. split; [reflexivity | vm_compute; reflexivity].
  - reflexivity.
Defined.

(** 40001 and then the quota error 45009: [get] and [getRaw] throw the
    second body after two requests. *)
Lemma retried_error_is_final_witness :
  let remote :=
    demo_remote (λ n, match n with O => response_40001
                               | _ => response_quota_exceeded end) in
  let quota : JsObject :=
    {[ "errcode" := JNum 45009;
       "errmsg" := JStr "reach max api daily quota limit" ]} in
  fails_on_second_response (get remote demo_options "/cgi-bin/quota" ∅)
    "/cgi-bin/quota" quota empty_world ∧
  fails_on_second_response (getRaw remote demo_options "/cgi-bin/quota" ∅)
    "/cgi-bin/quota" quota empty_world.
Proof.
  intros remote quota.
  destruct (retried_error_is_final remote demo_options "/cgi-bin/quota" ∅
              quota empty_world) as [Hjson Hraw].
  - by exists "cgi-bin/quota".
  - intros n. by eexists _, _.
  - eexists. split; [reflexivity | vm_compute; reflexivity].
  - reflexivity.
  - destruct Hjson as [Hget _].
    { exists (JNum 45009). split; [vm_compute; reflexivity | done]. }
    destruct Hraw as [HgetRaw _].
    { by exists "; charset=UTF-8". }
    { by exists "". }
    by split.
Defined.

Section PathMore.

Variable env : Remote.
Variable options : WeixinOptions.

Lemma client_request_bad_path (fuel : nat) (method : Method) (path : string)
    (params : JsObject) (isRetry : bool) (w : World) :
  Str.first_is_slash path = false →
  rejected_after_token env options
    (client_request env options (S fuel) method path params isRetry) w.
Proof.
  intros Hp. unfold rejected_after_token. rewrite client_request_unfold.
  pose proof (getAccessToken_footprint env options false w) as (Fm & Fd & _ & Fo).
  destruct (getAccessToken env options false w) as [[tok|e|] w1];
    simpl in Fm, Fd, Fo |- *; [| done | done].
  unfold request_after_token. rewrite request_bad by done. simpl. done.
Qed.

Lemma client_raw_bad_path (fuel : nat) (method : Method) (path : string)
    (params : JsObject) (isRetry : bool) (w : World) :
  Str.first_is_slash path = false →
  rejected_after_token env options
    (client_raw env options (S fuel) method path params isRetry) w.
Proof.
  intros Hp. unfold rejected_after_token. rewrite client_raw_unfold.
  pose proof (getAccessToken_footprint env options false w) as (Fm & Fd & _ & Fo).
  destruct (getAccessToken env options false w) as [[tok|e|] w1];
    simpl in Fm, Fd, Fo |- *; [| done | done].
  unfold raw_after_token. rewrite request_bad by done. simpl. done.
Qed.

(** X14. The client asks for the access token before the transport looks
    at the path. With a path that does not start with '/', [get], [post],
    [getRaw] and [postRaw] make no network call for the request, but they
    invoke [getAccessToken()] once, with all its effects (on a store
    without a valid token it calls the token endpoint and caches the
    answer); if that call returns a token the result is the
    input-validation error, otherwise the error of the token fetch. *)
Theorem bad_path_fetches_token_first (path : string) (params : JsObject)
    (w : World) :
  (∀ rest, path ≠ String "/"%char rest) →
  rejected_after_token env options (get env options path params) w ∧
  rejected_after_token env options (post env options path params) w ∧
  rejected_after_token env options (getRaw env options path params) w ∧
  rejected_after_token env options (postRaw env options path params) w.
Proof.
  intros Hbad.
  assert (Str.first_is_slash path = false) as Hp.
  { destruct (Str.first_is_slash path) eqn:E; [|done].
    apply StrFacts.first_is_slash_true in E as [rest ->]. by destruct (Hbad rest). }
  unfold get, post, getRaw, postRaw.
  split; [by apply client_request_bad_path |].
  split; [by apply client_request_bad_path |].
  split; by apply client_raw_bad_path.
Qed.

Lemma client_request_no_plain_error (fuel : nat) (method : Method)
    (path : string) (params : JsObject) (isRetry : bool) (w : World)
    (msg : string) :
  Str.first_is_slash path = true →
  fst (client_request env options fuel method path params isRetry w)
    ≠ Thrown (PlainError msg).
Proof.
  intros Hp. revert isRetry w.
  induction fuel as [|fuel IH]; intros isRetry w; [done |].
  rewrite client_request_unfold.
  pose proof (getAccessToken_throws_classified env options false w) as T1.
  destruct (getAccessToken env options false w) as [[tok|e|] w1]; simpl in *;
    [| intros [= ->]; destruct (T1 _ eq_refl) as [T _]; by apply failed_as_not_plain in T | done].
  unfold request_after_token. rewrite request_ok by done.
  destruct (json_body _) as [data|]; [|done].
  destruct (errcode_nonzero data); [|done].
  destruct (negb isRetry && strict_eq_num (data !! "errcode") 40001); [|done].
  pose proof (getAccessToken_throws_classified env options true
                (mkWorld (tokens w1)
                   (EvFetch (sent_call method path (Some tok) params) :: events w1)))
    as T2.
  destruct (getAccessToken env options true _) as [[tok2|e|] w3]; simpl in *;
    [apply IH | intros [= ->]; destruct (T2 _ eq_refl) as [T _]; by apply failed_as_not_plain in T | done].
Qed.

Lemma client_raw_no_plain_error (fuel : nat) (method : Method)
    (path : string) (params : JsObject) (isRetry : bool) (w : World)
    (msg : string) :
  Str.first_is_slash path = true →
  fst (client_raw env options fuel method path params isRetry w)
    ≠ Thrown (PlainError msg).
Proof.
  intros Hp. revert isRetry w.
  induction fuel as [|fuel IH]; intros isRetry w; [done |].
  rewrite client_raw_unfold.
  pose proof (getAccessToken_throws_classified env options false w) as T1.
  destruct (getAccessToken env options false w) as [[tok|e|] w1]; simpl in *;
    [| intros [= ->]; destruct (T1 _ eq_refl) as [T _]; by apply failed_as_not_plain in T | done].
  unfold raw_after_token. rewrite request_ok by done.
  destruct (is_json_content _); [|done].
  destruct (json_body _) as [data|]; [|done].
  destruct (negb isRetry && strict_eq_num (data !! "errcode") 40001); [|done].
  pose proof (getAccessToken_throws_classified env options true
                (mkWorld (tokens w1)
                   (EvFetch (sent_call method path (Some tok) params) :: events w1)))
    as T2.
  destruct (getAccessToken env options true _) as [[tok2|e|] w3]; simpl in *;
    [apply IH | intros [= ->]; destruct (T2 _ eq_refl) as [T _]; by apply failed_as_not_plain in T | done].
Qed.

End PathMore.

(** On an empty store the token is fetched and cached before the path is
    refused. *)
Lemma bad_path_fetches_token_first_witness :
  rejected_after_token (demo_remote (λ _, response_ok)) demo_options
    (get (demo_remote (λ _, response_ok)) demo_options "cgi-bin/quota" ∅)
    empty_world ∧
  token_calls (snd (get (demo_remote (λ _, response_ok)) demo_options
                      "cgi-bin/quota" ∅ empty_world)) = 1%nat.
Proof.
  split.
  - refine (proj1 (bad_path_fetches_token_first (demo_remote (λ _, response_ok))
                     demo_options "cgi-bin/quota" ∅ empty_world _)).
    intros rest. discriminate.
  - vm_compute. reflexivity.
Defined.

Section WrappersMore.

Variable env : Remote.
Variable options : WeixinOptions.

(** X15. With a path that starts with '/', a request of the client never
    ends with the input-validation error, on any of its paths (first
    attempt, forced refresh, retry): what [get], [post], [getRaw] and
    [postRaw] can throw is a classified Weixin error, the failure of a
    call of the token endpoint or the rejection of [res.json()]. The same
    holds for the wrappers, whose paths are
    literals: [getAPIQuota] (whatever the [path] it is asked about),
    [getDailySummary] and [getUnlimitedQRCode]. *)
Theorem valid_path_is_never_rejected (path : string) (params : JsObject)
    (w : World) (msg : string) :
  (Str.first_is_slash path = true →
     fst (get env options path params w) ≠ Thrown (PlainError msg) ∧
     fst (post env options path params w) ≠ Thrown (PlainError msg) ∧
     fst (getRaw env options path params w) ≠ Thrown (PlainError msg) ∧
     fst (postRaw env options path params w) ≠ Thrown (PlainError msg)) ∧
  fst (getAPIQuota env options path w) ≠ Thrown (PlainError msg) ∧
  (∀ beginDate endDate,
     fst (getDailySummary env options beginDate endDate w)
       ≠ Thrown (PlainError msg)) ∧
  (∀ scene qr_options,
     fst (getUnlimitedQRCode env options scene qr_options w)
       ≠ Thrown (PlainError msg)).
Proof.
  split; [|split; [|split]].
  - intros Hp. unfold get, post, getRaw, postRaw.
    repeat split;
      first [by apply client_request_no_plain_error
            | by apply client_raw_no_plain_error].
  - unfold getAPIQuota, bind, post.
    pose proof (client_request_no_plain_error env options 2 POST
                  "/cgi-bin/openapi/quota/get" {[ "cgi_path" := JStr path ]}
                  false w msg eq_refl) as H.
    destruct (client_request _ _ _ _ _ _ _ w) as [[d|e|] w']; simpl in *;
      [done | intros [= ->]; by apply H | done].
  - intros beginDate endDate. unfold getDailySummary, post.
    by apply client_request_no_plain_error.
  - intros scene qr_options. unfold getUnlimitedQRCode, bind, postRaw.
    pose proof (client_raw_no_plain_error env options 2 POST
                  "/wxa/getwxacodeunlimit"
                  (default ∅ qr_options ∪ {[ "scene" := JStr scene ]})
                  false w msg eq_refl) as H.
    destruct (client_raw _ _ _ _ _ _ _ w) as [[d|e|] w']; simpl in *;
      [done | intros [= ->]; by apply H | done].
Qed.

(** X16. [getAPIQuota] answers with the [quota] field of the success
    body, and with [undefined], not with an error, when the body has no
    such field. The path it is asked about travels as [cgi_path] in the
    JSON body of a POST to the literal quota path. *)
Theorem getAPIQuota_reads_quota (path : string) (w : World)
    (accessToken : string) (data : JsObject) :
  fst (getAccessToken env options false w) = Returned accessToken →
  json_body (data_api env (data_calls w)) = Some data →
  data !! "errcode" = None ∨ data !! "errcode" = Some (JNum 0) →
  getAPIQuota env options path w =
    (Returned (data !! "quota"),
     mkWorld (tokens (snd (getAccessToken env options false w)))
       (EvFetch (sent_call POST "/cgi-bin/openapi/quota/get" (Some accessToken)
                   {[ "cgi_path" := JStr path ]})
          :: events (snd (getAccessToken env options false w)))) ∧
  (data !! "quota" = None →
     fst (getAPIQuota env options path w) = Returned None).
Proof.
  intros Htok Hbody Hok.
  assert (Hcode : data !! "errcode" ≠ Some (JNum 40001))
    by (destruct Hok as [-> | ->]; done).
  assert (Hzero : errcode_nonzero data = false)
    by (unfold errcode_nonzero; destruct Hok as [-> | ->]; done).
  assert (Hrun : getAPIQuota env options path w =
    (Returned (data !! "quota"),
     mkWorld (tokens (snd (getAccessToken env options false w)))
       (EvFetch (sent_call POST "/cgi-bin/openapi/quota/get" (Some accessToken)
                   {[ "cgi_path" := JStr path ]})
          :: events (snd (getAccessToken env options false w))))).
  { unfold getAPIQuota, bind, post.
    rewrite (first_attempt_json env options POST "/cgi-bin/openapi/quota/get"
               _ data w accessToken eq_refl Htok Hbody Hcode).
    by rewrite Hzero. }
  split; [exact Hrun |]. intros Hq. rewrite Hrun. simpl. by rewrite Hq.
Qed.

(** X17. The type of a QR code that [getUnlimitedQRCode] returns is the
    content type of the response it carries, or 'image/jpeg' when the
    header is missing or empty; it is never empty and never starts with
    'application/json', and the response itself is never a JSON one. *)
Theorem qrcode_type_is_not_json (scene : string) (qr_options : option JsObject)
    (w w' : World) (qr : QRCode) :
  getUnlimitedQRCode env options scene qr_options w = (Returned qr, w') →
  is_json_content (qr_stream_of qr) = false ∧
  Str.startsWith "application/json" (qr_type qr) = false ∧
  qr_type qr ≠ "" ∧
  (content_type (qr_stream_of qr) = None ∨ content_type (qr_stream_of qr) = Some ""
     → qr_type qr = "image/jpeg") ∧
  (∀ ct, content_type (qr_stream_of qr) = Some ct → ct ≠ "" → qr_type qr = ct).
Proof.
  unfold getUnlimitedQRCode, bind, postRaw.
  destruct (client_raw _ _ _ _ _ _ _ w) as [[res|e|] w1] eqn:E; try done.
  intros [= <- <-]. simpl.
  apply client_raw_returns_non_json in E.
  split; [done |]. unfold is_json_content in E.
  destruct (content_type res) as [[|c ct]|]; simpl in *.
  - repeat split; try done. intros ct [= <-]. done.
  - repeat split; try done.
    + by intros [? | ?].
    + by intros ct' [= <-].
  - repeat split; done.
Qed.

(** X18. The exchanges of an authorization code use no access token.
    [createSessionFromCode] and [createTokenFromCode] make exactly one
    network call, a GET whose query carries the appid, the whole secret
    and the code and no [access_token]; they do not invoke the token
    manager and leave the store as it is. The body is returned when it
    has an [openid] key, whatever else it carries; without that key it is
    thrown as a classified error, and nothing is retried. *)
Theorem code_exchange_uses_no_token (code : string) (w : World) :
  (∃ call,
     snd (createSessionFromCode env options code w)
       = mkWorld (tokens w) (EvFetch call :: events w) ∧
     fetch_method call = GET ∧ fetch_path call = "/sns/jscode2session" ∧
     fetch_query call !! "access_token" = None ∧
     fetch_query call !! "appid" = Some (JStr (appid options)) ∧
     fetch_query call !! "secret" = Some (JStr (secret options)) ∧
     fetch_query call !! "js_code" = Some (JStr code)) ∧
  (∃ call,
     snd (createTokenFromCode env options code w)
       = mkWorld (tokens w) (EvFetch call :: events w) ∧
     fetch_method call = GET ∧ fetch_path call = "/sns/oauth2/access_token" ∧
     fetch_query call !! "access_token" = None ∧
     fetch_query call !! "appid" = Some (JStr (appid options)) ∧
     fetch_query call !! "secret" = Some (JStr (secret options)) ∧
     fetch_query call !! "code" = Some (JStr code)) ∧
  (∀ data, json_body (data_api env (data_calls w)) = Some data →
     (is_Some (data !! "openid") →
        fst (createSessionFromCode env options code w) = Returned data ∧
        fst (createTokenFromCode env options code w) = Returned data) ∧
     (data !! "openid" = None →
        fst (createSessionFromCode env options code w)
          = Thrown (WeixinThrown (createError
              "Unable to create a session from an authorization code." data)) ∧
        fst (createTokenFromCode env options code w)
          = Thrown (WeixinThrown (createError
              "Unable to create a token from an authorization code." data)))).
Proof.
  unfold createSessionFromCode, createTokenFromCode, exchangeCodeForSession,
    exchangeCodeForToken, bind, json.
  rewrite !request_ok by done. simpl.
  split; [|split].
  - eexists. split.
    + destruct (json_body _) as [data|]; [|reflexivity].
      unfold ret, throw. destruct (data !! "openid"); reflexivity.
    + simpl. repeat split; by simplify_map_eq.
  - eexists. split.
    + destruct (json_body _) as [data|]; [|reflexivity].
      unfold ret, throw. destruct (data !! "openid"); reflexivity.
    + simpl. repeat split; by simplify_map_eq.
  - intros data ->. unfold ret, throw. split.
    + intros [v ->]. done.
    + intros ->. done.
Qed.

(** X19. A refused authorization code surfaces as a
    [WeixinAuthCodeError]: when the exchange answers a body without
    [openid] whose [errcode] is 40029, 40163 or 42003,
    [createSessionFromCode] and [createTokenFromCode] throw the
    authorization-code error whose message is their context message with
    the phrase of the code spliced in before the final period. *)
Theorem refused_code_is_auth_code_error (code : string) (w : World)
    (data : JsObject) (errcode : Z) (phrase : string) :
  json_body (data_api env (data_calls w)) = Some data →
  data !! "openid" = None →
  data !! "errcode" = Some (JNum errcode) →
  (errcode = 40029 ∧ phrase = "invalid code") ∨
  (errcode = 40163 ∧ phrase = "code has been used") ∨
  (errcode = 42003 ∧ phrase = "code has expired") →
  fst (createSessionFromCode env options code w)
    = Thrown (WeixinThrown (mkWeixinError WeixinAuthCodeErrorClass
        ("Unable to create a session from an authorization code: "
           +:+ phrase +:+ ".") data)) ∧
  fst (createTokenFromCode env options code w)
    = Thrown (WeixinThrown (mkWeixinError WeixinAuthCodeErrorClass
        ("Unable to create a token from an authorization code: "
           +:+ phrase +:+ ".") data)).
Proof.
  intros Hbody Hopen Hcode Htable.
  assert (Hmap : authcodeErrorMap (data !! "errcode") = Some phrase)
    by (apply authcodeErrorMap_table; eauto).
  unfold createSessionFromCode, createTokenFromCode, exchangeCodeForSession,
    exchangeCodeForToken, bind, json.
  rewrite !request_ok by done. simpl. rewrite Hbody. unfold ret. rewrite Hopen.
  unfold throw, createError. rewrite Hmap. simpl.
  change "Unable to create a session from an authorization code."
    with ("Unable to create a session from an authorization code" +:+ ".").
  change "Unable to create a token from an authorization code."
    with ("Unable to create a token from an authorization code" +:+ ".").
  rewrite !formatMessage_dot. done.
Qed.

End WrappersMore.

Lemma valid_path_is_never_rejected_witness :
  fst (get failing_remote demo_options "/cgi-bin/quota" ∅ empty_world)
    ≠ Thrown (PlainError "Path must start with '/'").
Proof.
  refine (proj1 (proj1 (valid_path_is_never_rejected failing_remote demo_options
                          "/cgi-bin/quota" ∅ empty_world
                          "Path must start with '/'") _)).
  reflexivity.
Defined.

Lemma getAPIQuota_reads_quota_witness :
  fst (getAPIQuota (demo_remote (λ _, response_no_errcode)) demo_options
         "/wxa/getwxacodeunlimit" warm_world) = Returned (Some (JOther 0)) ∧
  fst (getAPIQuota (demo_remote (λ _, response_ok)) demo_options
         "/wxa/getwxacodeunlimit" warm_world) = Returned None.
Proof.
  split.
  - rewrite (proj1 (getAPIQuota_reads_quota
                      (demo_remote (λ _, response_no_errcode)) demo_options
                      "/wxa/getwxacodeunlimit" warm_world "cached"
                      {[ "quota" := JOther 0 ]} eq_refl eq_refl
                      (or_introl eq_refl))).
    reflexivity.
  - refine (proj2 (getAPIQuota_reads_quota
                     (demo_remote (λ _, response_ok)) demo_options
                     "/wxa/getwxacodeunlimit" warm_world "cached"
                     {[ "errcode" := JNum 0; "errmsg" := JStr "ok" ]}
                     eq_refl eq_refl (or_intror _)) _).
    + vm_compute. reflexivity.
    + vm_compute. reflexivity.
Defined.

Lemma qrcode_type_is_not_json_witness :
  Str.startsWith "application/json"
    (qr_type (mkQRCode "image/jpeg" response_image)) = false.
Proof.
  refine (proj1 (proj2 (qrcode_type_is_not_json
            (demo_remote (λ _, response_image)) demo_options "a=hello" None
            warm_world
            (snd (getUnlimitedQRCode (demo_remote (λ _, response_image))
                    demo_options "a=hello" None warm_world))
            (mkQRCode "image/jpeg" response_image) _))).
  vm_compute. reflexivity.
Defined.

Lemma code_exchange_uses_no_token_witness :
  fst (createSessionFromCode (demo_remote (λ _, response_session)) demo_options
         "authcode" empty_world)
    = Returned {[ "session_key" := JStr "gPXJstHE7Gviep8pOAfvZQ==";
                  "openid" := JStr "olQ7rLmm83trKrCNaof6Gf0IkDwU" ]}.
Proof.
  refine (proj1 (proj1 (proj2 (proj2 (code_exchange_uses_no_token
            (demo_remote (λ _, response_session)) demo_options "authcode"
            empty_world)) _ _) _)).
  - reflexivity.
  - eexists. vm_compute. reflexivity.
Defined.

Lemma refused_code_is_auth_code_error_witness :
  fst (createSessionFromCode (demo_remote (λ _, response_invalid_code))
         demo_options "authcode" empty_world)
    = Thrown (WeixinThrown (mkWeixinError WeixinAuthCodeErrorClass
        "Unable to create a session from an authorization code: invalid code."
        {[ "errcode" := JNum 40029; "errmsg" := JStr "invalid code" ]})).
Proof.
  refine (proj1 (refused_code_is_auth_code_error
            (demo_remote (λ _, response_invalid_code)) demo_options "authcode"
            empty_world _ 40029 "invalid code" _ _ _ _)).
  - reflexivity.
  - vm_compute. reflexivity.
  - vm_compute. reflexivity.
  - left. split; reflexivity.
Defined.

(** ** The composite key, again *)

Lemma app_colon_inv (a1 a2 r1 r2 : string) :
  no_colon a1 = true → no_colon a2 = true →
  a1 +:+ String ":"%char r1 = a2 +:+ String ":"%char r2 →
  a1 = a2 ∧ r1 = r2.
Proof.
  revert a2. induction a1 as [|c a1 IH]; intros [|d a2] H1 H2 H.
  - rewrite !StrFacts.app_nil_l in H. by injection H as ->.
  - rewrite StrFacts.app_nil_l, StrFacts.app_cons in H. injection H as <- _.
    simpl in H2. by destruct (ascii_dec ":" ":").
  - rewrite StrFacts.app_nil_l, StrFacts.app_cons in H. injection H as -> _.
    simpl in H1. by destruct (ascii_dec ":" ":").
  - rewrite !StrFacts.app_cons in H. injection H as -> H.
    simpl in H1, H2. destruct (ascii_dec d ":"); [done |].
    destruct (IH a2 H1 H2 H) as [-> ->]. done.
Qed.

(** X20. The cache key reveals no more of the secret than its first six
    characters: two secrets with the same first six characters give the
    same key, so the key is a function of the appid, that prefix and the
    kind alone; and it is at most fourteen characters longer than the
    appid. *)
Theorem key_depends_on_prefix_only (appid secret1 secret2 : string)
    (stable : bool) :
  (Str.slice_to 6 secret1 = Str.slice_to 6 secret2 →
     compositeKey appid secret1 stable = compositeKey appid secret2 stable) ∧
  compositeKey appid (Str.slice_to 6 secret1) stable
    = compositeKey appid secret1 stable ∧
  (String.length (compositeKey appid secret1 stable)
     ≤ String.length appid + 14)%nat.
Proof.
  unfold compositeKey. split; [|split].
  - by intros ->.
  - by rewrite StrFacts.slice_to_idem.
  - rewrite !StrFacts.length_app.
    pose proof (StrFacts.length_slice_to 6 secret1).
    destruct stable; simpl; lia.
Qed.

Lemma key_depends_on_prefix_only_witness :
  compositeKey "wx1234" "abcdef-one" true = compositeKey "wx1234" "abcdef-two" true.
Proof.
  exact (proj1 (key_depends_on_prefix_only "wx1234" "abcdef-one" "abcdef-two" true)
           eq_refl).
Defined.

(** X21. Between appids that contain no colon the key is injective: two
    clients compute the same key only if they have the same appid, the
    same first six characters of the secret and ask for the same kind of
    token. *)
Theorem key_separates_appids (o1 o2 : WeixinOptions) (stable1 stable2 : bool) :
  no_colon (appid o1) = true →
  no_colon (appid o2) = true →
  cache_key o1 stable1 = cache_key o2 stable2 →
  appid o1 = appid o2 ∧
  Str.slice_to 6 (secret o1) = Str.slice_to 6 (secret o2) ∧
  stable1 = stable2.
Proof.
  intros H1 H2 Hkey. unfold cache_key in Hkey.
  assert (appid o1 = appid o2) as Happ.
  { unfold compositeKey in Hkey.
    change (appid o1 +:+ String ":"%char
              (Str.slice_to 6 (Str.slice_to 6 (secret o1))
                 +:+ (if stable1 then ":stable" else "")) =
            appid o2 +:+ String ":"%char
              (Str.slice_to 6 (Str.slice_to 6 (secret o2))
                 +:+ (if stable2 then ":stable" else ""))) in Hkey.
    by apply app_colon_inv in Hkey as [? _]. }
  split; [done |]. rewrite Happ in Hkey.
  apply compositeKey_inj in Hkey as [Hs ->].
  by rewrite !StrFacts.slice_to_idem in Hs.
Qed.

Lemma key_separates_appids_witness :
  Str.slice_to 6 (secret (mkOptions "wx1234" "abcdef-one"))
    = Str.slice_to 6 (secret (mkOptions "wx1234" "abcdef-two")).
Proof.
  exact (proj1 (proj2 (key_separates_appids (mkOptions "wx1234" "abcdef-one")
                         (mkOptions "wx1234" "abcdef-two") true true
                         eq_refl eq_refl eq_refl))).
Defined.

(** ** The error classifier, again *)

Lemma at_last_app (a b : string) :
  b ≠ "" → Str.at_last (a +:+ b) = Str.at_last b.
Proof.
  intros Hb. induction a as [|c a IH]; [done |].
  rewrite StrFacts.app_cons. simpl. rewrite IH.
  destruct (a +:+ b) eqn:E; [|done].
  destruct a; [by rewrite StrFacts.app_nil_l in E | by rewrite StrFacts.app_cons in E].
Qed.

Lemma prefix_app (a b : string) : String.prefix a (a +:+ b) = true.
Proof.
  induction a as [|c a IH]; [by destruct b |].
  rewrite StrFacts.app_cons. simpl.
  destruct (ascii_dec c c); [done | congruence].
Qed.

(** X22. Whatever the response, the message of the error that
    [createError] builds keeps the context message, without its final
    period if it has one, as its beginning, and it ends with a period
    exactly when the context message does. *)
Theorem classified_message_keeps_context (msg : string) (resp : JsObject) :
  String.prefix (if ends_with_dot msg then Str.slice_but_last msg else msg)
    (message (createError msg resp)) = true ∧
  ends_with_dot (message (createError msg resp)) = ends_with_dot msg.
Proof.
  unfold createError.
  destruct (authcodeErrorMap (resp !! "errcode")) as [phrase|] eqn:Hmap; simpl.
  - unfold formatMessage.
    destruct (ends_with_dot msg) eqn:Hdot.
    + split; [apply prefix_app |].
      unfold ends_with_dot.
      replace (Str.slice_but_last msg +:+ ": " +:+ phrase +:+ ".")
        with ((Str.slice_but_last msg +:+ ": " +:+ phrase) +:+ ".")
        by (by rewrite !StrFacts.app_assoc).
      by rewrite StrFacts.at_last_snoc.
    + split; [apply prefix_app |].
      unfold ends_with_dot.
      replace (msg +:+ ": " +:+ phrase) with ((msg +:+ ": ") +:+ phrase)
        by (by rewrite !StrFacts.app_assoc).
      apply authcodeErrorMap_table in Hmap
        as (code & _ & [[_ ->]|[[_ ->]|[_ ->]]]);
        by rewrite at_last_app.
  - split; [|done].
    destruct (ends_with_dot msg) eqn:Hdot.
    + rewrite (ends_with_dot_inv _ Hdot) at 2. apply prefix_app.
    + rewrite <- (StrFacts.app_nil_r msg) at 2. apply prefix_app.
Qed.
